(** * api-precos-dinamicos: the pricing service of [app.py]

    A shallow embedding of [app.py] (name normalisation, price parsing,
    catalogue loading, category classification and the [/health],
    [/materiais], [/reload] and [/preco] handlers) together with the
    properties the specification states about them and further
    properties of the code.

    Python [str] values are lists of Unicode code points.  The behaviour of
    the Python runtime and of the [unidecode] package is written out for
    the Basic Latin and Latin-1 Supplement blocks; what they do elsewhere
    is a parameter of the development ([UnicodeData]).  Floats are
    binary64 values computed in integer arithmetic.  The HTTP download is
    an oracle of the [world]; a downloaded body is given as the rows
    [csv.DictReader] reads from it. *)

From Stdlib Require Import ZArith NArith List Bool Lia String Ascii.
From stdpp Require Import gmap strings list fin_maps sorting.

Abbreviation str := (list N).

(** ** Text literals *)

(** Code point of an ASCII character. *)
Definition ch (a : ascii) : N := N_of_ascii a.

(** The literals of this file are UTF-8; [u] reads one as code points
    (one- and two-byte sequences, all the literals below need). *)
Fixpoint utf8 (bs : list N) : str :=
  match bs with
  | [] => []
  | b :: r =>
      if (b <? 192)%N then b :: utf8 r
      else match r with
           | b' :: r' => ((b - 192) * 64 + (b' - 128))%N :: utf8 r'
           | [] => []
           end
  end.

Definition u (s : string) : str := utf8 (map N_of_ascii (list_ascii_of_string s)).

(** ** Unicode data outside Latin-1 *)

Record UnicodeData := {
  lower_ext : str -> str;        (* str.lower on a string that leaves Latin-1 *)
  unidecode_ext : N -> str;      (* the unidecode tables not written out below *)
  isspace_ext : N -> bool;       (* str.isspace, code points from U+0100 *)
  isalnum_ext : N -> bool;       (* str.isalnum, code points from U+0100 *)
  isdigit_ext : N -> bool;       (* str.isdigit, code points from U+0100 *)
  decimal_ext : N -> option N    (* value of a decimal digit (category Nd) *)
}.

(** The tables that know nothing beyond Latin-1: used to run the model on
    concrete Latin-1 inputs, which never consult them. *)
Definition latin1_only : UnicodeData :=
  {| lower_ext := fun s => s;
     unidecode_ext := fun _ => [];
     isspace_ext := fun _ => false;
     isalnum_ext := fun _ => false;
     isdigit_ext := fun _ => false;
     decimal_ext := fun _ => None |}.

(** ** Character classes (Python [str] methods and [re]'s [\w]) *)

Definition in_range (lo hi c : N) : bool := ((lo <=? c) && (c <=? hi))%N.

Definition is_ascii_digit (c : N) : bool := in_range 48 57 c.
Definition is_ascii_upper (c : N) : bool := in_range 65 90 c.
Definition is_ascii_lower (c : N) : bool := in_range 97 122 c.

Section Text.
Variable U : UnicodeData.

(** [str.isspace]: TAB..CR, FS..US, SPACE, NEL, NBSP in Latin-1. *)
Definition isspace (c : N) : bool :=
  if (c <? 256)%N
  then in_range 9 13 c || in_range 28 32 c || (c =? 133)%N || (c =? 160)%N
  else isspace_ext U c.

(** [str.isalnum] of one character. *)
Definition isalnum (c : N) : bool :=
  if (c <? 256)%N
  then is_ascii_digit c || is_ascii_upper c || is_ascii_lower c
       || (c =? 170)%N || (c =? 178)%N || (c =? 179)%N || (c =? 181)%N
       || (c =? 185)%N || (c =? 186)%N || in_range 188 190 c
       || in_range 192 214 c || in_range 216 246 c || in_range 248 255 c
  else isalnum_ext U c.

(** [\w] of a [str] pattern: alphanumeric or underscore. *)
Definition is_word (c : N) : bool := isalnum c || (c =? ch "_")%N.

(** [str.isdigit] of one character: the ASCII digits and the superscripts
    one, two, three in Latin-1. *)
Definition isdigit (c : N) : bool :=
  if (c <? 256)%N
  then is_ascii_digit c || (c =? 178)%N || (c =? 179)%N || (c =? 185)%N
  else isdigit_ext U c.

(** Value of a decimal digit, as [int] and [float] read them. *)
Definition decimal (c : N) : option N :=
  if (c <? 256)%N
  then if is_ascii_digit c then Some (c - 48)%N else None
  else decimal_ext U c.

(** ** [str] methods *)

(** [s.lower()] *)
Definition lower_latin1 (c : N) : N :=
  if is_ascii_upper c || (in_range 192 222 c && negb (c =? 215)%N)
  then (c + 32)%N else c.

Definition py_lower (s : str) : str :=
  if forallb (fun c => (c <? 256)%N) s then map lower_latin1 s
  else lower_ext U s.

(** [s.strip()] *)
Fixpoint lstrip (s : str) : str :=
  match s with
  | [] => []
  | c :: r => if isspace c then lstrip r else s
  end.

Definition rstrip (s : str) : str := rev (lstrip (rev s)).

Definition strip (s : str) : str := rstrip (lstrip s).

(** [s.split()]: the maximal runs of non-whitespace, [w] being the run
    read so far. *)
Definition emit (w : str) : list str :=
  match w with [] => [] | _ => [w] end.

Fixpoint split_from (w : str) (s : str) : list str :=
  match s with
  | [] => emit w
  | c :: r =>
      if isspace c then emit w ++ split_from [] r
      else split_from (w ++ [c]) r
  end.

Definition split_ws (s : str) : list str := split_from [] s.

(** [s.split(sep)] for a one-character separator. *)
Fixpoint split_on (sep : N) (s : str) : list str :=
  match s with
  | [] => [[]]
  | c :: r =>
      if (c =? sep)%N then [] :: split_on sep r
      else match split_on sep r with
           | w :: ws => (c :: w) :: ws
           | [] => [[c]]
           end
  end.

(** [sep.join(ws)] *)
Fixpoint join (sep : str) (ws : list str) : str :=
  match ws with
  | [] => []
  | w :: rest =>
      match rest with
      | [] => w
      | _ :: _ => w ++ sep ++ join sep rest
      end
  end.

(** [s.startswith(p)] *)
Fixpoint starts_with (p s : str) : bool :=
  match p, s with
  | [], _ => true
  | a :: p', b :: s' => (a =? b)%N && starts_with p' s'
  | _ :: _, [] => false
  end.

(** [sub in s] *)
Fixpoint contains (sub s : str) : bool :=
  starts_with sub s ||
  match s with
  | [] => false
  | _ :: r => contains sub r
  end.

(** [s.replace(old, new)] for a non-empty [old]: occurrences are replaced
    left to right without overlap; [skip] counts the characters of an
    occurrence still to pass over. *)
Fixpoint replace_go (old new : str) (skip : nat) (s : str) : str :=
  match s with
  | [] => []
  | c :: r =>
      match skip with
      | S k => replace_go old new k r
      | O =>
          if starts_with old s
          then new ++ replace_go old new (length old - 1) r
          else c :: replace_go old new 0 r
      end
  end.

Definition replace (old new s : str) : str := replace_go old new 0 s.

(** ** [unidecode.unidecode] *)

(** The Latin-1 Supplement rows of unidecode's table [x000]: symbols,
    then the accented letters.  ASCII is passed through by the package
    itself; the C1 controls, the vulgar fractions and every other block
    are left to [unidecode_ext]. *)
Definition x000 (c : N) : option str :=
  match c with
  | 160 => Some (u " ")   | 161 => Some (u "!")   | 162 => Some (u "C/")
  | 163 => Some (u "PS")  | 164 => Some (u "$?")  | 165 => Some (u "Y=")
  | 166 => Some (u "|")   | 167 => Some (u "SS")  | 168 => Some [34]
  | 169 => Some (u "(c)") | 170 => Some (u "a")   | 171 => Some (u "<<")
  | 172 => Some (u "!")   | 173 => Some []        | 174 => Some (u "(r)")
  | 175 => Some (u "-")   | 176 => Some (u "deg") | 177 => Some (u "+-")
  | 178 => Some (u "2")   | 179 => Some (u "3")   | 180 => Some (u "'")
  | 181 => Some (u "u")   | 182 => Some (u "P")   | 183 => Some (u "*")
  | 184 => Some (u ",")   | 185 => Some (u "1")   | 186 => Some (u "o")
  | 187 => Some (u ">>")  | 191 => Some (u "?")
  | 192 | 193 | 194 | 195 | 196 | 197 => Some (u "A")
  | 198 => Some (u "AE")  | 199 => Some (u "C")
  | 200 | 201 | 202 | 203 => Some (u "E")
  | 204 | 205 | 206 | 207 => Some (u "I")
  | 208 => Some (u "D")   | 209 => Some (u "N")
  | 210 | 211 | 212 | 213 | 214 => Some (u "O")
  | 215 => Some (u "x")   | 216 => Some (u "O")
  | 217 | 218 | 219 | 220 => Some (u "U")
  | 221 => Some (u "Y")   | 222 => Some (u "Th")  | 223 => Some (u "ss")
  | 224 | 225 | 226 | 227 | 228 | 229 => Some (u "a")
  | 230 => Some (u "ae")  | 231 => Some (u "c")
  | 232 | 233 | 234 | 235 => Some (u "e")
  | 236 | 237 | 238 | 239 => Some (u "i")
  | 240 => Some (u "d")   | 241 => Some (u "n")
  | 242 | 243 | 244 | 245 | 246 => Some (u "o")
  | 247 => Some (u "/")   | 248 => Some (u "o")
  | 249 | 250 | 251 | 252 => Some (u "u")
  | 253 => Some (u "y")   | 254 => Some (u "th")  | 255 => Some (u "y")
  | _ => None
  end%N.

Definition unidecode_char (c : N) : str :=
  if (c <? 128)%N then [c]
  else match x000 c with
       | Some t => t
       | None => unidecode_ext U c
       end.

Definition unidecode (s : str) : str := flat_map unidecode_char s.

(** ** [re.sub(r"\bde\b", " ", t)] *)

(** Does the pattern match at the head of [s]?  [d] and [e] are word
    characters, so the leading [\b] asks for no word character before
    (none at the start of the text) and the trailing one for none after. *)
Definition head_is_word (s : str) : bool :=
  match s with
  | [] => false
  | c :: _ => is_word c
  end.

Definition de_at (prev_word : bool) (s : str) : bool :=
  match s with
  | c1 :: c2 :: r =>
      negb prev_word && (c1 =? ch "d")%N && (c2 =? ch "e")%N
      && negb (head_is_word r)
  | _ => false
  end.

(** The scan of [re.sub]: a match is replaced by one space and the scan
    resumes after it (the character before is then [e]); otherwise the
    character is copied.  [prev_word]: is the character before a word
    character? *)
Fixpoint sub_de (prev_word : bool) (s : str) : str :=
  match s with
  | [] => []
  | c :: r =>
      if de_at prev_word s
      then ch " " :: match r with
                     | _ :: r' => sub_de true r'
                     | [] => []
                     end
      else c :: sub_de (is_word c) r
  end.

(** ** Normalização de nomes *)

Definition norm_nome (txt : option str) : str :=
  match txt with
  | None => []
  | Some txt =>
      let t := unidecode (py_lower txt) in
      let t := sub_de false t in
      let t := replace (u "-") (u " ") t in
      let t := join (u " ") (split_ws t) in
      t
  end.

(** ** Util: URL CSV do Google Sheets *)

Definition to_csv_url (url : str) : str :=
  match url with
  | [] => []
  | _ :: _ =>
      if contains (u "output=csv") url then url
      else if contains (u "/pubhtml") url then
        let url := replace (u "/pubhtml") (u "/pub") url in
        let sep := if contains (u "?") url then u "&" else u "?" in
        url ++ sep ++ u "output=csv"
      else url
  end.

End Text.

(** ** Floating point: binary64 as Python's [float] uses it *)

(** A float is a sign and a magnitude [m * 2^e], or an infinity, or NaN. *)
Inductive float :=
  | Finite (neg : bool) (m e : Z)
  | Inf (neg : bool)
  | NaN.

(** Nearest integer to [a / b] ([0 < b]), ties to the even one. *)
Definition rne (a b : Z) : Z :=
  let q := (a / b)%Z in
  let r := (a mod b)%Z in
  if (2 * r <? b)%Z then q
  else if (b <? 2 * r)%Z then (q + 1)%Z
  else if Z.even q then q else (q + 1)%Z.

(** [2^k <= a / b] *)
Definition quot_ge_pow2 (a b k : Z) : bool :=
  if (0 <=? k)%Z then (b * 2 ^ k <=? a)%Z else (b <=? a * 2 ^ (- k))%Z.

(** The integer part of [log2 (a / b)], for [0 < a] and [0 < b]. *)
Definition floor_log2_quot (a b : Z) : Z :=
  let l := (Z.log2 a - Z.log2 b)%Z in
  if quot_ge_pow2 a b l then l else (l - 1)%Z.

(** Nearest integer to [(a / b) / 2^e], ties to even. *)
Definition scaled_rne (a b e : Z) : Z :=
  if (0 <=? e)%Z then rne a (b * 2 ^ e) else rne (a * 2 ^ (- e)) b.

(** The binary64 value nearest to [a / b] ([0 <= a], [0 < b]): 53
    significant bits, exponents from -1074 (subnormals), ties to even,
    infinity from [2^1024]. *)
Definition to_binary64 (neg : bool) (a b : Z) : float :=
  if (a =? 0)%Z then Finite neg 0 0
  else
    let e := Z.max (floor_log2_quot a b - 52) (-1074) in
    let m := scaled_rne a b e in
    if (0 <=? e)%Z && (2 ^ 1024 <=? m * 2 ^ e)%Z then Inf neg
    else Finite neg m e.

(** [round(x)] with one argument: an [int], ties to even; [None] stands
    for the OverflowError (infinity) or ValueError (NaN) it raises. *)
Definition py_round (x : float) : option Z :=
  match x with
  | Finite neg m e =>
      let n := if (0 <=? e)%Z then (m * 2 ^ e)%Z else rne m (2 ^ (- e)) in
      Some (if neg then (- n)%Z else n)
  | Inf _ | NaN => None
  end.

(** [a / b] on [int]s: the correctly rounded quotient; [None] stands for
    ZeroDivisionError or OverflowError. *)
Definition truediv (a b : Z) : option float :=
  if (b =? 0)%Z then None
  else match to_binary64 (xorb (a <? 0)%Z (b <? 0)%Z) (Z.abs a) (Z.abs b) with
       | Inf _ => None
       | x => Some x
       end.

(** ** [float(s)] and [int(s)] on text *)

Definition c_isspace (c : N) : bool := in_range 9 13 c || (c =? 32)%N.

Fixpoint c_lstrip (s : str) : str :=
  match s with
  | [] => []
  | c :: r => if c_isspace c then c_lstrip r else s
  end.

Definition c_strip (s : str) : str := rev (c_lstrip (rev (c_lstrip s))).

Definition ascii_lower (c : N) : N :=
  if is_ascii_upper c then (c + 32)%N else c.

(** Digits at the head of [s], and what follows them. *)
Fixpoint span_digits (s : str) : list Z * str :=
  match s with
  | [] => ([], [])
  | c :: r =>
      if is_ascii_digit c
      then let '(ds, rest) := span_digits r in (Z.of_N (c - 48) :: ds, rest)
      else ([], s)
  end.

Definition digits_value (ds : list Z) : Z :=
  fold_left (fun acc d => (10 * acc + d)%Z) ds 0%Z.

(** Underscores may only stand between two digits; they are dropped. *)
Fixpoint drop_underscores (prev : N) (s : str) : option str :=
  match s with
  | [] => if (prev =? ch "_")%N then None else Some []
  | c :: r =>
      if (c =? ch "_")%N
      then if is_ascii_digit prev then drop_underscores c r else None
      else if (prev =? ch "_")%N && negb (is_ascii_digit c) then None
      else option_map (cons c) (drop_underscores c r)
  end.

Definition take_sign (s : str) : bool * str :=
  match s with
  | c :: r =>
      if (c =? ch "-")%N then (true, r)
      else if (c =? ch "+")%N then (false, r)
      else (false, s)
  | [] => (false, [])
  end.

(** What follows the mantissa: nothing, or [e], a sign and digits. *)
Definition parse_exponent (s : str) : option Z :=
  match s with
  | [] => Some 0%Z
  | c :: r =>
      if (c =? ch "e")%N || (c =? ch "E")%N then
        let '(neg, r1) := take_sign r in
        match span_digits r1 with
        | ((_ :: _) as ds, []) =>
            Some (if neg then (- digits_value ds)%Z else digits_value ds)
        | _ => None
        end
      else None
  end.

(** A decimal numeral as [(m, x)], meaning [m * 10^x]. *)
Definition parse_decimal (s : str) : option (Z * Z) :=
  let '(int_ds, r1) := span_digits s in
  let '(frac_ds, r2) :=
    match r1 with
    | c :: r => if (c =? ch ".")%N then span_digits r else ([], r1)
    | [] => ([], [])
    end in
  match int_ds ++ frac_ds with
  | [] => None
  | ds =>
      match parse_exponent r2 with
      | Some x => Some (digits_value ds, (x - Z.of_nat (length frac_ds))%Z)
      | None => None
      end
  end.

(** What a call does: return a value or raise. *)
Inductive py_result (A : Type) :=
  | Returns (v : A)
  | Raises.
Arguments Returns {A} v.
Arguments Raises {A}.

Section Numbers.
Variable U : UnicodeData.

(** Before parsing a number CPython turns Unicode spaces into a space
    and decimal digits into ASCII digits, and cuts the text at the first
    other non-ASCII character, leaving a question mark there. *)
Fixpoint to_ascii_number (s : str) : str :=
  match s with
  | [] => []
  | c :: r =>
      if (c <? 127)%N then c :: to_ascii_number r
      else if isspace U c then ch " " :: to_ascii_number r
      else match decimal U c with
           | Some d => (48 + d)%N :: to_ascii_number r
           | None => [ch "?"]
           end
  end.

Definition number_text (s : str) : str :=
  if forallb (fun c => (c <? 128)%N) s then s else to_ascii_number s.

(** [float(s)]; [None] stands for ValueError. *)
Definition py_float (s : str) : option float :=
  match drop_underscores 0 (c_strip (number_text s)) with
  | None => None
  | Some t =>
      let '(neg, body) := take_sign t in
      let word := map ascii_lower body in
      if bool_decide (word = u "inf") || bool_decide (word = u "infinity")
      then Some (Inf neg)
      else if bool_decide (word = u "nan") then Some NaN
      else match parse_decimal body with
           | Some (m, x) =>
               Some (if (0 <=? x)%Z then to_binary64 neg (m * 10 ^ x) 1
                     else to_binary64 neg m (10 ^ (- x)))
           | None => None
           end
  end.

(** [int(digs)] for a text made of [isdigit] characters (no sign, space
    or underscore): its decimal value, or ValueError ([None]) when a
    character is a digit without being a decimal one.  The interpreter's
    cap on the number of digits ([sys.set_int_max_str_digits]) is a
    setting of the process and is left out. *)
Fixpoint decimals (digs : str) : option (list Z) :=
  match digs with
  | [] => Some []
  | c :: r =>
      match decimal U c, decimals r with
      | Some d, Some ds => Some (Z.of_N d :: ds)
      | _, _ => None
      end
  end.

Definition py_int (digs : str) : option Z := option_map digits_value (decimals digs).

(** ** Parse de preço tolerante *)

Definition parse_preco (v : option str) : py_result (option Z) :=
  match v with
  | None => Returns None
  | Some v =>
      let s := strip U v in
      match s with
      | [] => Returns None
      | _ :: _ =>
          let s := replace (u ".") [] s in
          let s := replace (u ",") (u ".") s in
          match option_bind _ _ py_round (py_float s) with
          | Some n => Returns (Some n)
          | None =>
              (* fallback: pega só dígitos *)
              let digs := List.filter (isdigit U) s in
              match digs with
              | [] => Returns None
              | _ :: _ =>
                  match py_int digs with
                  | Some n => Returns (Some n)
                  | None => Raises
                  end
              end
          end
      end
  end.

End Numbers.

(** ** Catálogo de materiais (preços unitários) *)

(** One value of [CATALOGO]: the dict with keys [preco] and [display]. *)
Record material := { m_preco : Z; m_display : str }.

(** [CATALOGO]: norm_name -> material. *)
Abbreviation catalogo := (gmap (list N) material).

(** A row of [csv.DictReader]: column name -> cell (a cell the reader
    fills with [None] is a missing key for [row.get]). *)
Abbreviation csv_row := (gmap (list N) (list N)).

(** What [requests.get] followed by [raise_for_status] does: it raises,
    or the body arrives; the body is given as the rows [csv.DictReader]
    yields from its text. *)
Inductive download :=
  | DownloadError
  | DownloadOk (rows : list csv_row).

(** What the process sees of the outside. *)
Record world := {
  getenv_MATERIAIS_URL : option str;
  requests_get : str -> download
}.

(** The record [app.logger] receives from [carregar_catalogo]. *)
Inductive log_record :=
  | LogWarning
  | LogError
  | LogInfo (lidas linhas unicos : nat).

(** JSON values and HTTP responses of the handlers. *)
#[local] Unset Elimination Schemes.
Inductive json :=
  | JBool (b : bool)
  | JInt (n : Z)
  | JStr (s : str)
  | JList (l : list json)
  | JObj (fields : list (str * json)).
#[local] Set Elimination Schemes.

Abbreviation response := (json * nat)%type.

Section App.
Variable U : UnicodeData.

(** Python's [a or b] on texts that may be [None]. *)
Definition py_or (a b : option str) : option str :=
  match a with
  | Some (_ :: _) => a
  | _ => b
  end.

Definition MATERIAIS_URL (w : world) : str :=
  strip U (default [] (getenv_MATERIAIS_URL w)).

(** The two cells the loop reads from a row: the first header of each
    list with a non-empty cell decides. *)
Definition row_mat (row : csv_row) : option str :=
  py_or (row !! u "materiais")
    (py_or (row !! u "material") (py_or (row !! u "nome") (Some []))).

Definition row_preco_raw (row : csv_row) : option str :=
  py_or (row !! u "preco")
    (py_or (row !! u "preço") (py_or (row !! u "preco (r$)") (Some []))).

(** The body of the loop over the rows; [linhas] and [lidas] are the two
    counters.  A row is skipped ([continue]) or stored. *)
Fixpoint carregar_linhas (rows : list csv_row) (linhas lidas : nat)
    (CATALOGO : catalogo) : catalogo * py_result (nat * nat) :=
  match rows with
  | [] => (CATALOGO, Returns (linhas, lidas))
  | row :: rest =>
      let linhas := S linhas in
      let mat := row_mat row in
      let preco_raw := row_preco_raw row in
      let mat := strip U (default [] mat) in
      match mat with
      | [] => carregar_linhas rest linhas lidas CATALOGO
      | _ :: _ =>
          match parse_preco U preco_raw with
          | Raises => (CATALOGO, Raises)
          | Returns None => carregar_linhas rest linhas lidas CATALOGO
          | Returns (Some preco) =>
              let key := norm_nome U (Some mat) in
              match key with
              | [] => carregar_linhas rest linhas lidas CATALOGO
              | _ :: _ =>
                  carregar_linhas rest linhas (S lidas)
                    (<[key := {| m_preco := preco; m_display := mat |}]> CATALOGO)
              end
          end
      end
  end.

(** [carregar_catalogo()]: the new [CATALOGO], and the record logged
    before returning (the function itself returns nothing), or the
    exception that left it. *)
Definition carregar_catalogo (w : world) (CATALOGO : catalogo)
    : catalogo * py_result log_record :=
  let CATALOGO : catalogo := ∅ in                   (* CATALOGO.clear() *)
  let url := to_csv_url (MATERIAIS_URL w) in
  match url with
  | [] => (CATALOGO, Returns LogWarning)
  | _ :: _ =>
      match requests_get w url with
      | DownloadError => (CATALOGO, Returns LogError)
      | DownloadOk rows =>
          match carregar_linhas rows 0 0 CATALOGO with
          | (CATALOGO, Returns (linhas, lidas)) =>
              (CATALOGO, Returns (LogInfo lidas linhas (size CATALOGO)))
          | (CATALOGO, Raises) => (CATALOGO, Raises)
          end
      end
  end.

(** ** Categorização simples *)

Definition PREMIUM_KEYS : gset (list N) :=
  list_to_set
    (map (fun n => norm_nome U (Some n))
       [u "Couro de Jacaré"; u "Couro de Python"; u "Couro de Avestruz";
        u "Couro de Pirarucu"; u "Couro de Elefante"]).

Definition classificar_categoria (keys_norm : list str) : str :=
  if existsb (fun k => bool_decide (k ∈ PREMIUM_KEYS)) keys_norm
  then u "Couro Premium" else u "Casual Urbano".

(** ** Endpoints *)

(** POST /reload *)
Definition reload (w : world) (CATALOGO : catalogo)
    : catalogo * py_result response :=
  match carregar_catalogo w CATALOGO with
  | (CATALOGO, Returns _) =>
      (CATALOGO,
       Returns (JObj [(u "ok", JBool true);
                      (u "materiais_catalogo", JInt (Z.of_nat (size CATALOGO)))],
                200))
  | (CATALOGO, Raises) => (CATALOGO, Raises)
  end.

(** The items of the query: [[p.strip() for p in s.split(",") if p.strip()]] *)
Definition itens_de (materiais_str : str) : list str :=
  map (strip U)
    (List.filter (fun p => negb (bool_decide (strip U p = [])))
       (split_on (ch ",") materiais_str)).

(** [CATALOGO[k]["preco"]] for each key; [None] stands for KeyError. *)
Definition precos_de (CATALOGO : catalogo) (keys_norm : list str) : option (list Z) :=
  mapM (fun k => m_preco <$> CATALOGO !! k) keys_norm.

(** GET /preco?materiais=A, B, C *)
Definition preco (CATALOGO : catalogo) (materiais : option str)
    : py_result response :=
  let materiais_str := strip U (default [] (py_or materiais (Some []))) in
  match materiais_str with
  | [] => Returns (JObj [(u "erro", JStr (u "Materiais não informados"))], 400)
  | _ :: _ =>
      let itens := itens_de materiais_str in
      match itens with
      | [] =>
          Returns (JObj [(u "erro", JStr (u "Nenhum material válido informado"))], 400)
      | _ :: _ =>
          let keys_norm := map (fun p => norm_nome U (Some p)) itens in
          let desconhecidos :=
            map fst
              (List.filter (fun ik => bool_decide (CATALOGO !! ik.2 = None))
                 (combine itens keys_norm)) in
          match desconhecidos with
          | _ :: _ =>
              Returns
                (JObj [(u "erro", JStr (u "Alguns materiais não existem no catálogo"));
                       (u "materiais_desconhecidos", JList (map JStr desconhecidos))],
                 404)
          | [] =>
              match precos_de CATALOGO keys_norm with
              | None => Raises
              | Some precos =>
                  let soma := fold_left Z.add precos 0%Z in
                  let n := length keys_norm in
                  match option_bind _ _ py_round (truediv soma (Z.of_nat n)) with
                  | None => Raises
                  | Some preco_final =>
                      let categoria := classificar_categoria keys_norm in
                      Returns
                        (JObj [(u "materiais", JList (map JStr itens));
                               (u "preco", JInt preco_final);
                               (u "categoria", JStr categoria);
                               (u "detalhes",
                                JObj [(u "soma_precos_unitarios", JInt soma);
                                      (u "quantidade_materiais", JInt (Z.of_nat n))])],
                         200)
                  end
              end
          end
      end
  end.

(** The catalogues the running service can hold: empty when the module
    is loaded, then whatever [carregar_catalogo] leaves, at start-up and
    at each reload. *)
Inductive reachable : catalogo -> Prop :=
  | reachable_start : reachable ∅
  | reachable_load w c : reachable c -> reachable (carregar_catalogo w c).1.

End App.

(** ** Endpoints: [/health] and [/materiais] *)

(** [a <= b] on [str]: by code points, lexicographically. *)
Fixpoint str_le (a b : str) : bool :=
  match a, b with
  | [], _ => true
  | _ :: _, [] => false
  | x :: a', y :: b' => (x <? y)%N || ((x =? y)%N && str_le a' b')
  end.

(** [sorted(l, key=key)]: the sort is stable; [x] goes before the first
    element whose key is not below its own. *)
Fixpoint insert_by (key : str -> str) (x : str) (l : list str) : list str :=
  match l with
  | [] => [x]
  | y :: l' => if str_le (key x) (key y) then x :: l else y :: insert_by key x l'
  end.

Definition sorted_by (key : str -> str) (l : list str) : list str :=
  foldr (insert_by key) [] l.

Section Handlers.
Variable U : UnicodeData.

(** GET /health *)
Definition health (CATALOGO : catalogo) : response :=
  (JObj [(u "ok", JBool true);
         (u "materiais_catalogo", JInt (Z.of_nat (size CATALOGO)));
         (u "exemplo", JStr (u "/preco?materiais=Couro Bovino, Couro de Tilápia, Jeans"))],
   200).

(** GET /materiais.  [valores] is [CATALOGO.values()] as the dict yields
    it, in the order of insertion, which a [gmap] does not keep. *)
Definition materiais (valores : list material) : response :=
  let itens := sorted_by (py_lower U) (map m_display valores) in
  (JObj [(u "itens", JList (map JStr itens));
         (u "total", JInt (Z.of_nat (length itens)))],
   200).

End Handlers.

(** * Vocabulary of the statements *)

(** [z] is the integer nearest to [a / b], the even one on a tie. *)
Definition nearest_even (a b z : Z) : Prop :=
  (2 * Z.abs (z * b - a) <= b
   /\ (2 * Z.abs (z * b - a) = b -> Z.even z = true))%Z.

(** ASCII other than the upper-case letters: what the transliteration of
    lower-cased Latin text is made of. *)
Definition plain (c : N) : bool := (c <? 128)%N && negb (is_ascii_upper c).

Definition plain_no_hyphen (c : N) : Prop := plain c = true /\ c <> ch "-".

(** What [replace("-", " ")] does to one character. *)
Definition hyphen_to_space (c : N) : N :=
  if (c =? ch "-")%N then ch " " else c.

(** Text within Latin-1, where [str.lower] and [unidecode] are tabulated. *)
Definition latin1 (s : str) : bool := forallb (fun c => (c <? 256)%N) s.

(** The digits of a text, as numbers. *)
Definition digit_values (s : str) : list Z :=
  map (fun c => Z.of_N (c - 48)) (List.filter is_ascii_digit s).

Section Vocabulary.
Variable U : UnicodeData.

(** Is the key of the item [p] absent from the catalogue? *)
Definition desconhecido (CATALOGO : catalogo) (p : str) : bool :=
  bool_decide (CATALOGO !! norm_nome U (Some p) = None).

(** The unit price behind an item, and the sum the handler divides. *)
Definition preco_unitario (CATALOGO : catalogo) (p : str) : Z :=
  default 0%Z (m_preco <$> CATALOGO !! norm_nome U (Some p)).

Definition soma_unitarios (CATALOGO : catalogo) (itens : list str) : Z :=
  fold_left Z.add (map (preco_unitario CATALOGO) itens) 0%Z.

(** Where a stored price comes from: the price cell of a row. *)
Definition price_of_row (rows : list csv_row) (e : material) : Prop :=
  exists row cell,
    row ∈ rows /\ row_preco_raw row = Some cell
    /\ parse_preco U (Some cell) = Returns (Some (m_preco e)).

(** No match of the pattern of [norm_nome] is left in [s]. *)
Fixpoint de_free (prev_word : bool) (s : str) : bool :=
  match s with
  | [] => true
  | c :: r => negb (de_at U prev_word s) && de_free (is_word U c) r
  end.

(** The words of a split: not empty, without whitespace. *)
Definition is_token (w : str) : Prop :=
  w <> [] /\ forallb (fun c => negb (isspace U c)) w = true.

(** [norm_nome] after the transliteration. *)
Definition norm_text (t : str) : str :=
  join (u " ") (split_ws U (map hyphen_to_space (sub_de U false t))).

(** An entry as the loop writes it: under the key of its display name,
    which is a trimmed, non-empty cell. *)
Definition well_keyed (k : str) (e : material) : Prop :=
  k = norm_nome U (Some (m_display e)) /\ k <> []
  /\ m_display e <> [] /\ strip U (m_display e) = m_display e.

End Vocabulary.

(** ** Catalogues and worlds of the examples *)

(** A world whose sheet cannot be downloaded. *)
Definition world_offline : world :=
  {| getenv_MATERIAIS_URL := Some (u "https://docs.example/pub?output=csv");
     requests_get := fun _ => DownloadError |}.

(** The catalogue of the example of the specification. *)
Definition catalogo_exemplo : catalogo :=
  <[ u "couro bovino" := {| m_preco := 100; m_display := u "Couro Bovino" |} ]>
    (<[ u "couro tilapia" := {| m_preco := 50; m_display := u "Couro de Tilápia" |} ]>
       (<[ u "jeans" := {| m_preco := 30; m_display := u "Jeans" |} ]> ∅)).

(** Sheets with a negative price, with ordinary prices, and with a price
    above 2^53. *)
Definition world_negative : world :=
  {| getenv_MATERIAIS_URL := Some (u "https://docs.example/pubhtml");
     requests_get := fun _ =>
       DownloadOk [ {[ u "materiais" := u "Couro X"; u "preco" := u "-5" ]} ] |}.

Definition world_sheet : world :=
  {| getenv_MATERIAIS_URL := Some (u "https://docs.example/pubhtml");
     requests_get := fun _ =>
       DownloadOk [ {[ u "materiais" := u "Couro Bovino"; u "preco" := u "100" ]};
                    {[ u "nome" := u "Jeans"; u "preço" := u "R$ 30" ]} ] |}.

(** The catalogue the service holds after loading [world_sheet]. *)
Definition catalogo_loaded : catalogo :=
  (carregar_catalogo latin1_only world_sheet ∅).1.

Definition world_large : world :=
  {| getenv_MATERIAIS_URL := Some (u "https://docs.example/pubhtml");
     requests_get := fun _ =>
       DownloadOk [ {[ u "materiais" := u "Ouro";
                       u "preco" := u "R$ 9007199254740993" ]} ] |}.

(** A service without a sheet, a sheet that names a material twice next
    to rows the loop skips, and a catalogue with a price no binary64 holds. *)
Definition world_unconfigured : world :=
  {| getenv_MATERIAIS_URL := Some (u "  ");
     requests_get := fun _ =>
       DownloadOk [ {[ u "materiais" := u "Jeans"; u "preco" := u "30" ]} ] |}.

Definition world_repeated : world :=
  {| getenv_MATERIAIS_URL := Some (u "https://docs.example/pubhtml?gid=0");
     requests_get := fun _ =>
       DownloadOk [ {[ u "materiais" := u "Jeans"; u "preco" := u "30" ]};
                    {[ u "materiais" := u "Veludo"; u "preco" := u "sob consulta" ]};
                    {[ u "materiais" := u " "; u "preco" := u "10" ]};
                    {[ u "material" := u "Couro de Tilápia"; u "preco (r$)" := u "50,40" ]};
                    {[ u "nome" := u " JEANS "; u "preço" := u "R$ 1.045" ]} ] |}.

Definition catalogo_costly : catalogo :=
  <[ u "ouro" := {| m_preco := 2 ^ 1024; m_display := u "Ouro" |} ]>
    (<[ u "jeans" := {| m_preco := 30; m_display := u "Jeans" |} ]> ∅).

(** * Properties *)

(** ** Rounding *)

Section Rounding.
Local Open Scope Z_scope.

(** Magnitudes are never negative. *)
Lemma rne_nonneg (a b : Z) : (0 <= a) -> (0 < b) -> (0 <= rne a b).
Proof.
  intros Ha Hb. unfold rne.
  assert (0 <= a / b) by (apply Z.div_pos; lia).
  repeat destruct (_ <? _); try destruct (Z.even _); lia.
Qed.

Lemma scaled_rne_nonneg (a b e : Z) :
  (0 <= a) -> (0 < b) -> (0 <= scaled_rne a b e).
Proof.
  intros Ha Hb. unfold scaled_rne. destruct (0 <=? e) eqn:E.
  - apply Z.leb_le in E. apply rne_nonneg; [done |].
    apply Z.mul_pos_pos; [done |]. by apply Z.pow_pos_nonneg.
  - apply rne_nonneg; [| done].
    apply Z.mul_nonneg_nonneg; [done |]. apply Z.pow_nonneg. lia.
Qed.

Lemma rne_nearest_even (a b : Z) : 0 < b -> nearest_even a b (rne a b).
Proof.
  intros Hb. unfold nearest_even, rne.
  pose proof (Z.div_mod a b ltac:(lia)) as Hdm.
  pose proof (Z.mod_pos_bound a b Hb) as Hr.
  set (q := a / b) in *. set (r := a mod b) in *.
  destruct (2 * r <? b) eqn:E1; [apply Z.ltb_lt in E1; split; lia |].
  apply Z.ltb_ge in E1.
  destruct (b <? 2 * r) eqn:E2; [apply Z.ltb_lt in E2; split; lia |].
  apply Z.ltb_ge in E2.
  destruct (Z.even q) eqn:E3; [split; [lia | done] |].
  split; [lia |]. intros _. rewrite Z.even_add, E3. reflexivity.
Qed.

Lemma nearest_even_unique (a b z z' : Z) :
  0 < b -> nearest_even a b z -> nearest_even a b z' -> z = z'.
Proof.
  intros Hb [H1 E1] [H2 E2].
  assert (Z.abs (z - z') <= 1) as Hd by nia.
  destruct (Z.eq_dec z z') as [| Hne]; [done |]. exfalso.
  assert (2 * Z.abs (z * b - a) = b) as T1 by nia.
  assert (2 * Z.abs (z' * b - a) = b) as T2 by nia.
  specialize (E1 T1). specialize (E2 T2).
  apply Z.even_spec in E1 as [k1 ->]. apply Z.even_spec in E2 as [k2 ->]. lia.
Qed.

Lemma rne_unique (a b z : Z) : 0 < b -> nearest_even a b z -> rne a b = z.
Proof.
  intros Hb Hz. apply (nearest_even_unique a b); [done | | done].
  by apply rne_nearest_even.
Qed.

Lemma rne_opp (a b : Z) : 0 < b -> rne (- a) b = - rne a b.
Proof.
  intros Hb. apply rne_unique; [done |].
  destruct (rne_nearest_even a b Hb) as [H E].
  unfold nearest_even. rewrite Z.even_opp.
  replace (- rne a b * b - - a) with (- (rne a b * b - a)) by ring.
  rewrite Z.abs_opp. done.
Qed.

Lemma rne_exact (m b : Z) : 0 < b -> rne (m * b) b = m.
Proof.
  intros Hb. apply rne_unique; [done |]. unfold nearest_even.
  replace (m * b - m * b) with 0 by ring. cbn. split; lia.
Qed.

(** Rounding to a grid of step [1 / P] first does not change the
    nearest integer when the grid is finer than [1 / b]. *)
Lemma rne_twice (a b P : Z) :
  0 < b -> b < P -> Z.even P = true ->
  rne (rne (a * P) b) P = rne a b.
Proof.
  intros Hb HP Hev.
  assert (0 < P) as HP0 by lia.
  destruct (rne_nearest_even (a * P) b Hb) as [Hm Em].
  destruct (rne_nearest_even (rne (a * P) b) P HP0) as [Hz Ez].
  remember (rne (a * P) b) as m eqn:Hm0.
  remember (rne m P) as z eqn:Hz0.
  symmetry. apply rne_unique; [done |]. split; [nia |].
  intros T. apply Ez.
  apply Z.even_spec in Hev as [h Hh].
  destruct (Z.abs_spec (z * b - a)) as [[_ Habs] | [_ Habs]]; rewrite Habs in T.
  - assert (a * P = (2 * z - 1) * h * b) as Hex by nia.
    rewrite Hex, rne_exact in Hm0 by done. subst m P. lia.
  - assert (a * P = (2 * z + 1) * h * b) as Hex by nia.
    rewrite Hex, rne_exact in Hm0 by done. subst m P. lia.
Qed.

(** *** Quotients below [2^52] survive the passage through binary64 *)

Lemma quot_ge_pow2_floor (a b : Z) :
  0 < a -> 0 < b -> quot_ge_pow2 a b (floor_log2_quot a b) = true.
Proof.
  intros Ha Hb. unfold floor_log2_quot.
  destruct (quot_ge_pow2 a b (Z.log2 a - Z.log2 b)) eqn:E; [done |].
  clear E.
  pose proof (Z.log2_spec a Ha) as [Ha1 _].
  pose proof (Z.log2_spec b Hb) as [_ Hb2].
  pose proof (Z.log2_nonneg a) as Hla. pose proof (Z.log2_nonneg b) as Hlb.
  set (la := Z.log2 a) in *. set (lb := Z.log2 b) in *.
  unfold quot_ge_pow2. destruct (0 <=? la - lb - 1) eqn:E.
  - apply Z.leb_le in E. apply Z.leb_le.
    assert (2 ^ la = 2 ^ Z.succ lb * 2 ^ (la - lb - 1)) as Hp.
    { rewrite <- Z.pow_add_r by lia. f_equal. lia. }
    assert (0 < 2 ^ (la - lb - 1)) by (apply Z.pow_pos_nonneg; lia).
    nia.
  - apply Z.leb_gt in E. apply Z.leb_le.
    assert (2 ^ Z.succ lb = 2 ^ la * 2 ^ (- (la - lb - 1))) as Hp.
    { rewrite <- Z.pow_add_r by lia. f_equal. lia. }
    assert (0 < 2 ^ (- (la - lb - 1))) by (apply Z.pow_pos_nonneg; lia).
    nia.
Qed.

Lemma rne_zero (b : Z) : 0 < b -> rne 0 b = 0.
Proof. intros Hb. apply rne_unique; [done |]. split; cbn; lia. Qed.

Lemma rne_small (a b : Z) : 0 <= a -> 2 * a < b -> rne a b = 0.
Proof. intros Ha Hb. apply rne_unique; [lia |]. split; lia. Qed.

Lemma round_binary64_small (neg : bool) (a b : Z) :
  0 <= a < 2 ^ 52 -> 0 < b ->
  py_round (to_binary64 neg a b) = Some (if neg then - rne a b else rne a b).
Proof.
  intros [Ha0 Ha] Hb. unfold to_binary64.
  destruct (a =? 0) eqn:E0.
  { apply Z.eqb_eq in E0. subst a. cbn [py_round Z.leb Z.compare].
    rewrite rne_zero by done. by destruct neg. }
  apply Z.eqb_neq in E0. assert (0 < a) as Hpos by lia.
  pose proof (quot_ge_pow2_floor a b Hpos Hb) as Hq.
  set (fl := floor_log2_quot a b) in *.
  assert (fl < 52) as Hfl.
  { destruct (Z_lt_le_dec fl 52) as [| Hge]; [done | exfalso].
    unfold quot_ge_pow2 in Hq. rewrite (proj2 (Z.leb_le 0 fl)) in Hq by lia.
    apply Z.leb_le in Hq.
    assert (2 ^ 52 <= 2 ^ fl) by (apply Z.pow_le_mono_r; lia). nia. }
  set (e := Z.max (fl - 52) (-1074)).
  assert (e < 0) as He by (unfold e; lia).
  assert ((0 <=? e) = false) as Ee by (apply Z.leb_gt; lia).
  unfold scaled_rne. rewrite Ee. cbn [andb py_round]. rewrite Ee.
  set (P := 2 ^ (- e)).
  assert (0 < P) as HP0 by (apply Z.pow_pos_nonneg; lia).
  assert (Z.even P = true) as HPe by (unfold P; rewrite Z.even_pow; [done | lia]).
  enough (rne (rne (a * P) b) P = rne a b) as -> by done.
  destruct (Z_lt_le_dec b P) as [Hlt | Hge]; [by apply rne_twice |].
  (* the subnormal range: both sides are 0 *)
  assert (2 ^ 53 < P) as HbigP.
  { destruct (Z.max_spec (fl - 52) (-1074)) as [[_ Hmax] | [_ Hmax]];
      fold e in Hmax.
    - unfold P. rewrite Hmax. by apply Z.pow_lt_mono_r.
    - exfalso. unfold quot_ge_pow2 in Hq.
      assert (- e = 52 - fl) as Hne by lia.
      destruct (0 <=? fl) eqn:Ef.
      + apply Z.leb_le in Ef. apply Z.leb_le in Hq.
        assert (2 ^ 52 = 2 ^ fl * P) as Hp.
        { unfold P. rewrite Hne, <- Z.pow_add_r by lia. f_equal. lia. }
        assert (0 < 2 ^ fl) by (apply Z.pow_pos_nonneg; lia). nia.
      + apply Z.leb_gt in Ef. apply Z.leb_le in Hq.
        assert (P = 2 ^ 52 * 2 ^ (- fl)) as Hp.
        { unfold P. rewrite Hne, <- Z.pow_add_r by lia. f_equal; lia. }
        assert (0 < 2 ^ (- fl)) by (apply Z.pow_pos_nonneg; lia). nia. }
  rewrite (rne_small a b) by lia.
  apply rne_small.
  - apply rne_nonneg; [nia | done].
  - destruct (rne_nearest_even (a * P) b Hb) as [Hm _].
    remember (rne (a * P) b) as m. nia.
Qed.

(** [round(a / n)] is the nearest integer to the exact quotient, ties to
    even, as long as [|a| < 2^52]. *)
Lemma round_truediv_small (a n : Z) :
  Z.abs a < 2 ^ 52 -> 0 < n ->
  option_bind _ _ py_round (truediv a n) = Some (rne a n).
Proof.
  intros Ha Hn. unfold truediv.
  rewrite (proj2 (Z.eqb_neq n 0)) by lia.
  rewrite (proj2 (Z.ltb_ge n 0)) by lia. rewrite xorb_false_r.
  rewrite (Z.abs_eq n) by lia.
  pose proof (round_binary64_small (a <? 0) (Z.abs a) n ltac:(lia) Hn) as H.
  destruct (to_binary64 (a <? 0) (Z.abs a) n) as [sg m e | sg |] eqn:E;
    [| done | done].
  cbn [option_bind]. rewrite H. f_equal.
  destruct (a <? 0) eqn:Es.
  - apply Z.ltb_lt in Es. rewrite <- rne_opp by done. f_equal. lia.
  - apply Z.ltb_ge in Es. f_equal. lia.
Qed.

End Rounding.

Section Properties.
Variable U : UnicodeData.

(** ** The name normaliser on examples *)

(** C9: the spellings "Couro-de-Jacaré" and "couro jacare" normalise to
    the same key. *)
Theorem norm_nome_jacare :
  norm_nome U (Some (u "Couro-de-Jacaré")) = norm_nome U (Some (u "couro jacare")).
Proof. vm_compute. reflexivity. Qed.

Lemma norm_nome_jacare_key :
  norm_nome U (Some (u "Couro-de-Jacaré")) = u "couro jacare".
Proof. vm_compute. reflexivity. Qed.

(** ** The price parser on examples *)

(** C2: on the three examples of the specification the parser returns
    149700 for "R$ 1.497,00" (the float parse fails on the currency sign
    and the fallback keeps every digit, the two after the comma too),
    none for the empty text and 123 for "abc123". *)
Theorem parse_preco_examples :
  parse_preco U (Some (u "R$ 1.497,00")) = Returns (Some 149700%Z)
  /\ parse_preco U (Some (u "")) = Returns None
  /\ parse_preco U (Some (u "abc123")) = Returns (Some 123%Z).
Proof. repeat split; vm_compute; reflexivity. Qed.

(** ** The category classifier *)

Lemma PREMIUM_KEYS_elems (k : list N) :
  k ∈ PREMIUM_KEYS U <->
  k ∈ [u "couro jacare"; u "couro python"; u "couro avestruz";
       u "couro pirarucu"; u "couro elefante"].
Proof.
  unfold PREMIUM_KEYS. rewrite elem_of_list_to_set.
  assert (E : map (fun n => norm_nome U (Some n))
            [u "Couro de Jacaré"; u "Couro de Python"; u "Couro de Avestruz";
             u "Couro de Pirarucu"; u "Couro de Elefante"]
          = [u "couro jacare"; u "couro python"; u "couro avestruz";
             u "couro pirarucu"; u "couro elefante"])
    by (vm_compute; reflexivity).
  rewrite E. reflexivity.
Qed.

(** C7: the classifier answers "Couro Premium" as soon as one key is in
    the premium set, whatever the other keys, and "Casual Urbano" when
    none is. *)
Theorem classificar_categoria_spec (keys_norm : list str) :
  ((exists k, k ∈ keys_norm /\ k ∈ PREMIUM_KEYS U) ->
     classificar_categoria U keys_norm = u "Couro Premium")
  /\ ((forall k, k ∈ keys_norm -> k ∉ PREMIUM_KEYS U) ->
     classificar_categoria U keys_norm = u "Casual Urbano").
Proof.
  unfold classificar_categoria.
  destruct (existsb _ keys_norm) eqn:E.
  - split; [reflexivity |].
    intros Hnone. apply existsb_exists in E as (k & Hin & Hk).
    apply bool_decide_eq_true in Hk.
    exfalso. apply (Hnone k); [by apply list_elem_of_In | done].
  - split; [| reflexivity].
    intros (k & Hin & Hk).
    assert (existsb (fun k => bool_decide (k ∈ PREMIUM_KEYS U)) keys_norm = true)
      as E'.
    { apply existsb_exists. exists k. split; [by apply list_elem_of_In |].
      by apply bool_decide_eq_true. }
    congruence.
Qed.

(** ** Unknown materials *)

Lemma itens_de_nil : itens_de U [] = [].
Proof. reflexivity. Qed.

Lemma desconhecidos_filter (CATALOGO : catalogo) (itens : list str) :
  map fst
    (List.filter (fun ik => bool_decide (CATALOGO !! ik.2 = None))
       (combine itens (map (fun p => norm_nome U (Some p)) itens)))
  = List.filter (desconhecido U CATALOGO) itens.
Proof.
  induction itens as [| p itens IH]; [reflexivity |].
  cbn [map combine List.filter snd]. unfold desconhecido at 1.
  destruct (bool_decide _); cbn [map fst]; by rewrite IH.
Qed.

Lemma preco_arg (raw : str) :
  strip U (default [] (py_or (Some raw) (Some []))) = strip U raw.
Proof. by destruct raw. Qed.

(** The response of [/preco] once an item is unknown. *)
Lemma preco_desconhecidos (CATALOGO : catalogo) (raw p : str) :
  p ∈ itens_de U (strip U raw) ->
  desconhecido U CATALOGO p = true ->
  preco U CATALOGO (Some raw) =
    Returns
      (JObj [(u "erro", JStr (u "Alguns materiais não existem no catálogo"));
             (u "materiais_desconhecidos",
              JList (map JStr
                       (List.filter (desconhecido U CATALOGO)
                          (itens_de U (strip U raw)))))],
       404).
Proof.
  intros Hin Hp. unfold preco. rewrite preco_arg.
  destruct (strip U raw) as [| c s] eqn:Es.
  { rewrite itens_de_nil in Hin. by apply elem_of_nil in Hin. }
  destruct (itens_de U (c :: s)) as [| i its] eqn:Ei.
  { by apply elem_of_nil in Hin. }
  rewrite desconhecidos_filter.
  destruct (List.filter _ (i :: its)) as [| d ds] eqn:Ef; [| reflexivity].
  exfalso.
  assert (In p (List.filter (desconhecido U CATALOGO) (i :: its))) as Hf.
  { apply filter_In. split; [by apply list_elem_of_In | done]. }
  rewrite Ef in Hf. destruct Hf.
Qed.

(** C6: when the key of at least one item of the query is absent from
    the catalogue, [/preco] answers 404 with exactly the unresolved items
    (trimmed, as typed, in the order of the query) and no price. *)
Theorem preco_unknown_materials (CATALOGO : catalogo) (raw : str) :
  (exists p, p ∈ itens_de U (strip U raw)
             /\ CATALOGO !! norm_nome U (Some p) = None) ->
  preco U CATALOGO (Some raw) =
    Returns
      (JObj [(u "erro", JStr (u "Alguns materiais não existem no catálogo"));
             (u "materiais_desconhecidos",
              JList (map JStr
                       (List.filter
                          (fun p => bool_decide
                                      (CATALOGO !! norm_nome U (Some p) = None))
                          (itens_de U (strip U raw)))))],
       404).
Proof.
  intros (p & Hin & Hp).
  apply (preco_desconhecidos CATALOGO raw p Hin).
  by apply bool_decide_eq_true.
Qed.

(** ** The empty key *)

Lemma carregar_linhas_no_empty_key (rows : list csv_row) (linhas lidas : nat)
    (CATALOGO : catalogo) :
  CATALOGO !! [] = None ->
  (carregar_linhas U rows linhas lidas CATALOGO).1 !! [] = None.
Proof.
  revert linhas lidas CATALOGO.
  induction rows as [| row rest IH]; intros linhas lidas CATALOGO H0; [done |].
  cbn [carregar_linhas].
  destruct (strip U _) as [| c mat]; [by apply IH |].
  destruct (parse_preco U _) as [[z |] |]; [| by apply IH | done].
  destruct (norm_nome U _) as [| k key] eqn:Ek; [by apply IH |].
  apply IH. by rewrite lookup_insert_ne.
Qed.

Lemma carregar_catalogo_no_empty_key (w : world) (CATALOGO : catalogo) :
  (carregar_catalogo U w CATALOGO).1 !! [] = None.
Proof.
  unfold carregar_catalogo.
  destruct (to_csv_url _); [done |].
  destruct (requests_get _ _) as [| rows]; [done |].
  pose proof (carregar_linhas_no_empty_key rows 0 0 ∅ (lookup_empty _)) as H.
  destruct (carregar_linhas U rows 0 0 ∅) as [c [[? ?] |]]; exact H.
Qed.

Lemma reachable_no_empty_key (CATALOGO : catalogo) :
  reachable U CATALOGO -> CATALOGO !! [] = None.
Proof.
  intros H. destruct H; [done | apply carregar_catalogo_no_empty_key].
Qed.

(** C10: no catalogue the service can hold has an entry under the empty
    key, so an item whose normalisation is empty (the bare word "de", a
    run of hyphens) is always answered as unknown, with 404 and the item
    in the list, and never priced. *)
Theorem empty_key_never_priced :
  (forall CATALOGO : catalogo, reachable U CATALOGO -> CATALOGO !! [] = None)
  /\ (forall (CATALOGO : catalogo) (raw p : str),
        reachable U CATALOGO ->
        p ∈ itens_de U (strip U raw) ->
        norm_nome U (Some p) = [] ->
        exists desconhecidos,
          p ∈ desconhecidos
          /\ preco U CATALOGO (Some raw) =
               Returns
                 (JObj [(u "erro",
                         JStr (u "Alguns materiais não existem no catálogo"));
                        (u "materiais_desconhecidos",
                         JList (map JStr desconhecidos))],
                  404))
  /\ norm_nome U (Some (u "de")) = []
  /\ norm_nome U (Some (u "---")) = [].
Proof.
  split; [exact reachable_no_empty_key |].
  split; [| split; vm_compute; reflexivity].
  intros CATALOGO raw p Hr Hin Hp.
  assert (desconhecido U CATALOGO p = true) as Hd.
  { unfold desconhecido. rewrite Hp. apply bool_decide_eq_true.
    by apply reachable_no_empty_key. }
  exists (List.filter (desconhecido U CATALOGO) (itens_de U (strip U raw))).
  split.
  - apply list_elem_of_In, filter_In. split; [by apply list_elem_of_In | done].
  - by apply (preco_desconhecidos CATALOGO raw p).
Qed.

(** ** Reload when the download fails *)

Lemma filter_desconhecido_empty (itens : list str) :
  List.filter (desconhecido U ∅) itens = itens.
Proof.
  induction itens as [| p itens IH]; [reflexivity |].
  cbn [List.filter]. unfold desconhecido at 1.
  rewrite lookup_empty, bool_decide_eq_true_2 by done. by rewrite IH.
Qed.

Lemma carregar_catalogo_download_error (w : world) (CATALOGO : catalogo) :
  to_csv_url (MATERIAIS_URL U w) <> [] ->
  requests_get w (to_csv_url (MATERIAIS_URL U w)) = DownloadError ->
  carregar_catalogo U w CATALOGO = (∅, Returns LogError).
Proof.
  intros Hurl Hget. unfold carregar_catalogo.
  destruct (to_csv_url _); [done |]. by rewrite Hget.
Qed.

(** C1 (as the code has it): when the download fails, the reload leaves
    the catalogue empty, whatever it held: [CATALOGO] is cleared before
    the download is tried.  Every item of a later query is then answered
    as unknown. *)
Theorem reload_failure_empties_catalog (w : world) (CATALOGO : catalogo) :
  to_csv_url (MATERIAIS_URL U w) <> [] ->
  requests_get w (to_csv_url (MATERIAIS_URL U w)) = DownloadError ->
  (carregar_catalogo U w CATALOGO).1 = ∅
  /\ forall raw p : str,
       p ∈ itens_de U (strip U raw) ->
       preco U (carregar_catalogo U w CATALOGO).1 (Some raw) =
         Returns
           (JObj [(u "erro", JStr (u "Alguns materiais não existem no catálogo"));
                  (u "materiais_desconhecidos",
                   JList (map JStr (itens_de U (strip U raw))))],
            404).
Proof.
  intros Hurl Hget.
  rewrite (carregar_catalogo_download_error w CATALOGO Hurl Hget).
  split; [reflexivity |].
  intros raw p Hin. cbn [fst].
  rewrite (preco_desconhecidos ∅ raw p Hin).
  - by rewrite filter_desconhecido_empty.
  - unfold desconhecido. by rewrite lookup_empty, bool_decide_eq_true_2.
Qed.

(** C3 (as the code has it): when the download fails, the failure is
    logged and nothing more; [/reload] answers 200 with [ok] true and a
    catalogue size of 0, the body it has after a successful reload of an
    empty sheet. *)
Theorem reload_failure_reports_ok (w : world) (CATALOGO : catalogo) :
  to_csv_url (MATERIAIS_URL U w) <> [] ->
  requests_get w (to_csv_url (MATERIAIS_URL U w)) = DownloadError ->
  (carregar_catalogo U w CATALOGO).2 = Returns LogError
  /\ reload U w CATALOGO =
       (∅, Returns (JObj [(u "ok", JBool true);
                          (u "materiais_catalogo", JInt 0)], 200)).
Proof.
  intros Hurl Hget. unfold reload.
  rewrite (carregar_catalogo_download_error w CATALOGO Hurl Hget).
  split; [reflexivity |]. by rewrite map_size_empty.
Qed.

(** ** The sign of a stored price *)

(** None of the text operations of [parse_preco] brings in a character
    that the cell does not have, full stops apart. *)
Lemma lstrip_incl (s : str) (x : N) : In x (lstrip U s) -> In x s.
Proof.
  induction s as [| c r IH]; cbn [lstrip]; [done |].
  destruct (isspace U c); [right; auto | done].
Qed.

Lemma strip_incl (s : str) (x : N) : In x (strip U s) -> In x s.
Proof.
  unfold strip, rstrip. intros H.
  apply in_rev, lstrip_incl in H. apply in_rev in H. by apply lstrip_incl.
Qed.

Lemma replace_go_incl (old new : str) (k : nat) (s : str) (x : N) :
  In x (replace_go old new k s) -> In x s \/ In x new.
Proof.
  revert k. induction s as [| c r IH]; intros k; cbn [replace_go]; [tauto |].
  destruct k as [| k].
  - destruct (starts_with old (c :: r)).
    + rewrite in_app_iff. intros [H | H]; [tauto |].
      apply IH in H. cbn [In]. tauto.
    + intros [-> | H]; [cbn [In]; tauto |].
      apply IH in H. cbn [In]. tauto.
  - intros H. apply IH in H. cbn [In]. tauto.
Qed.

Lemma replace_incl (old new s : str) (x : N) :
  In x (replace old new s) -> In x s \/ In x new.
Proof. apply replace_go_incl. Qed.

Lemma to_ascii_number_minus (s : str) :
  In (ch "-") (to_ascii_number U s) -> In (ch "-") s.
Proof.
  change (ch "-") with 45%N.
  induction s as [| c r IH]; cbn [to_ascii_number]; [done |].
  destruct (c <? 127)%N.
  { intros [-> | H]; [by left | right; auto]. }
  destruct (isspace U c).
  { intros [H | H]; [discriminate H | right; auto]. }
  destruct (decimal U c) as [d |].
  - intros [H | H]; [lia | right; auto].
  - intros [H | []]. discriminate H.
Qed.

Lemma number_text_minus (s : str) :
  In (ch "-") (number_text U s) -> In (ch "-") s.
Proof.
  unfold number_text. destruct (forallb _ s); [done |].
  apply to_ascii_number_minus.
Qed.

Lemma c_lstrip_incl (s : str) (x : N) : In x (c_lstrip s) -> In x s.
Proof.
  induction s as [| c r IH]; cbn [c_lstrip]; [done |].
  destruct (c_isspace c); [right; auto | done].
Qed.

Lemma c_strip_incl (s : str) (x : N) : In x (c_strip s) -> In x s.
Proof.
  unfold c_strip. intros H.
  apply in_rev, c_lstrip_incl in H. apply in_rev in H. by apply c_lstrip_incl.
Qed.

Lemma drop_underscores_incl (s : str) (prev : N) (t : str) (x : N) :
  drop_underscores prev s = Some t -> In x t -> In x s.
Proof.
  revert prev t. induction s as [| c r IH]; intros prev t; cbn [drop_underscores].
  - destruct (prev =? ch "_")%N; [done |]. intros [= <-]. done.
  - destruct (c =? ch "_")%N.
    + destruct (is_ascii_digit prev); [| done].
      intros H Hx. right. by apply (IH c t).
    + destruct (_ && _); [done |].
      destruct (drop_underscores c r) as [t' |] eqn:Et; [| done].
      intros [= <-] [-> | Hx]; [by left |]. right. by apply (IH c t').
Qed.

Lemma take_sign_no_minus (t : str) :
  ~ In (ch "-") t -> (take_sign t).1 = false.
Proof.
  destruct t as [| c r]; [done |]. intros H. cbn [take_sign].
  destruct (c =? ch "-")%N eqn:E.
  - apply N.eqb_eq in E. exfalso. apply H. by left.
  - by destruct (c =? ch "+")%N.
Qed.

Lemma py_round_to_binary64_nonneg (a b n : Z) :
  (0 <= a)%Z -> (0 < b)%Z ->
  py_round (to_binary64 false a b) = Some n -> (0 <= n)%Z.
Proof.
  intros Ha Hb. unfold to_binary64.
  destruct (a =? 0)%Z; [cbn; intros [= <-]; lia |].
  set (e := Z.max _ _).
  pose proof (scaled_rne_nonneg a b e Ha Hb) as Hm.
  destruct (_ && _); [done |]. cbn [py_round].
  intros [= <-]. destruct (0 <=? e)%Z eqn:E.
  - apply Z.leb_le in E. apply Z.mul_nonneg_nonneg; [done |].
    by apply Z.pow_nonneg.
  - apply rne_nonneg; [done |]. apply Z.pow_pos_nonneg; lia.
Qed.

Lemma digits_value_nonneg (ds : list Z) :
  Forall (fun d => 0 <= d)%Z ds -> (0 <= digits_value ds)%Z.
Proof.
  unfold digits_value.
  cut (forall acc, (0 <= acc)%Z -> Forall (fun d => 0 <= d)%Z ds ->
                   (0 <= fold_left (fun acc d => 10 * acc + d) ds acc)%Z).
  { intros H Hds. by apply H. }
  induction ds as [| d ds IH]; intros acc Hacc Hds; cbn [fold_left]; [done |].
  inversion Hds; subst. apply IH; [lia | done].
Qed.

Lemma span_digits_nonneg (s : str) :
  Forall (fun d => 0 <= d)%Z (span_digits s).1.
Proof.
  induction s as [| c r IH]; cbn [span_digits]; [constructor |].
  destruct (is_ascii_digit c); [| constructor].
  destruct (span_digits r) as [ds rest]. cbn [fst] in *.
  constructor; [lia | done].
Qed.

Lemma parse_decimal_nonneg (s : str) (m x : Z) :
  parse_decimal s = Some (m, x) -> (0 <= m)%Z.
Proof.
  unfold parse_decimal.
  pose proof (span_digits_nonneg s) as Hi.
  destruct (span_digits s) as [int_ds r1]. cbn [fst] in Hi.
  assert (forall t, Forall (fun d => 0 <= d)%Z (int_ds ++ (span_digits t).1)) as Hf.
  { intros t. apply Forall_app. split; [done | apply span_digits_nonneg]. }
  assert (Forall (fun d => 0 <= d)%Z (int_ds ++ [])) as Hn.
  { apply Forall_app. split; [done | constructor]. }
  destruct r1 as [| c r].
  - destruct (int_ds ++ []) as [| d ds] eqn:E; [done |].
    destruct (parse_exponent []); [| done].
    intros [= <- _]. by apply digits_value_nonneg.
  - destruct (c =? ch ".")%N.
    + specialize (Hf r). destruct (span_digits r) as [frac_ds r2]. cbn [fst] in Hf.
      destruct (int_ds ++ frac_ds) as [| d ds] eqn:E; [done |].
      destruct (parse_exponent r2); [| done].
      intros [= <- _]. by apply digits_value_nonneg.
    + destruct (int_ds ++ []) as [| d ds] eqn:E; [done |].
      destruct (parse_exponent (c :: r)); [| done].
      intros [= <- _]. by apply digits_value_nonneg.
Qed.

Lemma py_float_round_nonneg (s : str) (n : Z) :
  ~ In (ch "-") s ->
  option_bind _ _ py_round (py_float U s) = Some n -> (0 <= n)%Z.
Proof.
  intros Hs. unfold py_float.
  destruct (drop_underscores 0 _) as [t |] eqn:Et; [| done].
  assert (~ In (ch "-") t) as Ht.
  { intros H. apply Hs, number_text_minus, c_strip_incl.
    by apply (drop_underscores_incl _ _ _ _ Et). }
  pose proof (take_sign_no_minus t Ht) as Hneg.
  destruct (take_sign t) as [neg body]. cbn [fst] in Hneg. subst neg.
  destruct (_ || _); [done |].
  destruct (bool_decide _); [done |].
  destruct (parse_decimal body) as [[m x] |] eqn:Ep; [| done].
  apply parse_decimal_nonneg in Ep. cbn [option_bind].
  destruct (0 <=? x)%Z eqn:Ex.
  - apply Z.leb_le in Ex. apply py_round_to_binary64_nonneg; [| lia].
    apply Z.mul_nonneg_nonneg; [done |]. by apply Z.pow_nonneg.
  - apply py_round_to_binary64_nonneg; [done |].
    apply Z.pow_pos_nonneg; lia.
Qed.

Lemma py_int_nonneg (digs : str) (n : Z) :
  py_int U digs = Some n -> (0 <= n)%Z.
Proof.
  unfold py_int.
  assert (forall ds, decimals U digs = Some ds -> Forall (fun d => 0 <= d)%Z ds) as H.
  { induction digs as [| c r IH]; cbn [decimals]; intros ds.
    - intros [= <-]. constructor.
    - destruct (decimal U c) as [d |]; [| done].
      destruct (decimals U r) as [ds' |]; [| done].
      intros [= <-]. constructor; [lia | by apply IH]. }
  destruct (decimals U digs) as [ds |]; [| done].
  cbn. intros [= <-]. apply digits_value_nonneg. by apply H.
Qed.

(** A price read from a cell without a minus sign is not negative. *)
Lemma parse_preco_nonneg (cell : str) (z : Z) :
  ~ In (ch "-") cell ->
  parse_preco U (Some cell) = Returns (Some z) -> (0 <= z)%Z.
Proof.
  intros Hc. unfold parse_preco.
  destruct (strip U cell) as [| c s] eqn:Es; [done |].
  set (t := replace (u ",") (u ".") (replace (u ".") [] (c :: s))).
  assert (~ In (ch "-") t) as Ht.
  { intros H. apply replace_incl in H as [H | H].
    - apply replace_incl in H as [H | []].
      apply Hc, strip_incl. by rewrite Es.
    - vm_compute in H. intuition discriminate. }
  destruct (option_bind _ _ py_round (py_float U t)) as [n |] eqn:Ef.
  - intros [= <-]. by apply (py_float_round_nonneg t).
  - destruct (List.filter (isdigit U) t) as [| d ds]; [done |].
    destruct (py_int U (d :: ds)) as [n |] eqn:Ei; [| done].
    intros [= <-]. by apply (py_int_nonneg (d :: ds)).
Qed.

Lemma carregar_linhas_precos (all rows : list csv_row) (linhas lidas : nat)
    (CATALOGO : catalogo) :
  (forall row, row ∈ rows -> row ∈ all) ->
  (forall k e, CATALOGO !! k = Some e -> price_of_row U all e) ->
  forall k e,
    (carregar_linhas U rows linhas lidas CATALOGO).1 !! k = Some e ->
    price_of_row U all e.
Proof.
  revert linhas lidas CATALOGO.
  induction rows as [| row rest IH]; intros linhas lidas CATALOGO Hsub Hcat;
    cbn [carregar_linhas]; [exact Hcat |].
  assert (forall r, r ∈ rest -> r ∈ all) as Hrest.
  { intros r Hr. apply Hsub. by right. }
  destruct (strip U _) as [| c mat]; [by apply IH |].
  destruct (row_preco_raw row) as [cell |] eqn:Ec;
    [| cbn [parse_preco]; by apply IH].
  destruct (parse_preco U (Some cell)) as [[z |] |] eqn:Ep;
    [| by apply IH | exact Hcat].
  destruct (norm_nome U _) as [| k0 key]; [by apply IH |].
  apply IH; [done |].
  intros k e. rewrite lookup_insert. case_decide as Hk.
  - intros [= <-]. exists row, cell. cbn [m_preco].
    split; [apply Hsub; by left | done].
  - apply Hcat.
Qed.

(** C4 (as the code has it): the unit price of every entry a load stores
    is the integer [parse_preco] returns for the price cell of a row of
    the sheet; it is not negative when that cell has no minus sign. *)
Theorem stored_preco_is_parsed (w : world) (CATALOGO : catalogo) (k : str)
    (e : material) :
  (carregar_catalogo U w CATALOGO).1 !! k = Some e ->
  exists rows row cell,
    requests_get w (to_csv_url (MATERIAIS_URL U w)) = DownloadOk rows
    /\ row ∈ rows
    /\ row_preco_raw row = Some cell
    /\ parse_preco U (Some cell) = Returns (Some (m_preco e))
    /\ (ch "-" ∉ cell -> (0 <= m_preco e)%Z).
Proof.
  unfold carregar_catalogo. cbv zeta.
  destruct (to_csv_url _) as [| c url]; cbn [fst]; [by rewrite lookup_empty |].
  destruct (requests_get _ _) as [| rows]; cbn [fst]; [by rewrite lookup_empty |].
  intros H.
  assert (price_of_row U rows e) as (row & cell & Hin & Hcell & Hp).
  { apply (carregar_linhas_precos rows rows 0 0 ∅) with (k := k); [done | |].
    - intros k' e'. by rewrite lookup_empty.
    - destruct (carregar_linhas U rows 0 0 ∅) as [cat [[? ?] |]]; exact H. }
  exists rows, row, cell. repeat split; try done.
  intros Hm. apply (parse_preco_nonneg cell); [| done].
  intros Hin'. by apply Hm, list_elem_of_In.
Qed.

(** ** Idempotence of the normaliser *)

Ltac to_prop H :=
  unfold plain, is_word, isalnum, isspace, is_ascii_digit, is_ascii_upper,
    is_ascii_lower, in_range in H;
  repeat first
    [ rewrite orb_true_iff in H | rewrite andb_true_iff in H
    | rewrite negb_true_iff in H | rewrite orb_false_iff in H
    | rewrite andb_false_iff in H
    | rewrite N.leb_le in H | rewrite N.ltb_lt in H | rewrite N.eqb_eq in H
    | rewrite N.leb_gt in H | rewrite N.ltb_ge in H | rewrite N.eqb_neq in H ].

Lemma space_not_word (c : N) :
  (c <? 256)%N = true -> isspace U c = true -> is_word U c = false.
Proof.
  intros Hc Hs. destruct (is_word U c) eqn:Hw; [exfalso | done].
  unfold isspace in Hs. unfold is_word, isalnum in Hw. rewrite Hc in Hs, Hw.
  change (ch "_") with 95%N in Hw.
  to_prop Hs. to_prop Hw. lia.
Qed.

Lemma plain_latin1 (c : N) : plain c = true -> (c <? 256)%N = true.
Proof. intros H. to_prop H. apply N.ltb_lt. lia. Qed.

Lemma py_lower_plain (r : str) : forallb plain r = true -> py_lower U r = r.
Proof.
  intros H. unfold py_lower.
  assert (forallb (fun c => (c <? 256)%N) r = true) as ->.
  { apply forallb_forall. intros c Hc. apply plain_latin1.
    by apply (proj1 (forallb_forall _ _) H). }
  induction r as [| c r IH]; [done |].
  cbn [forallb map] in *. apply andb_true_iff in H as [Hc Hr].
  rewrite IH by done. f_equal.
  unfold lower_latin1. to_prop Hc.
  destruct (is_ascii_upper c || _) eqn:E; [| done].
  exfalso. to_prop E. lia.
Qed.

Lemma unidecode_plain (r : str) : forallb plain r = true -> unidecode U r = r.
Proof.
  intros H. unfold unidecode.
  induction r as [| c r IH]; [done |].
  cbn [forallb flat_map] in *. apply andb_true_iff in H as [Hc Hr].
  rewrite IH by done. unfold unidecode_char.
  to_prop Hc. destruct (c <? 128)%N eqn:E; [done |].
  apply N.ltb_ge in E. lia.
Qed.

(** *** The substitution leaves no match *)

Lemma is_word_d : is_word U (ch "d") = true.
Proof. reflexivity. Qed.

Lemma is_word_e : is_word U (ch "e") = true.
Proof. reflexivity. Qed.

Lemma not_word_neq_d (c : N) : is_word U c = false -> (c =? ch "d")%N = false.
Proof.
  intros H. destruct (c =? ch "d")%N eqn:E; [| done].
  apply N.eqb_eq in E. subst c. by rewrite is_word_d in H.
Qed.

Lemma not_word_neq_e (c : N) : is_word U c = false -> (c =? ch "e")%N = false.
Proof.
  intros H. destruct (c =? ch "e")%N eqn:E; [| done].
  apply N.eqb_eq in E. subst c. by rewrite is_word_e in H.
Qed.

Lemma de_at_true (s : str) : de_at U true s = false.
Proof. by destruct s as [| c1 [| c2 r]]. Qed.

Lemma sub_de_true_cons (c : N) (r : str) :
  sub_de U true (c :: r) = c :: sub_de U (is_word U c) r.
Proof. cbn [sub_de]. by rewrite de_at_true. Qed.

Lemma head_is_word_sub_de_true (s : str) :
  head_is_word U (sub_de U true s) = head_is_word U s.
Proof. destruct s as [| c r]; [done |]. by rewrite sub_de_true_cons. Qed.

Lemma sub_de_head_not_word (s : str) :
  head_is_word U s = false -> sub_de U true s = sub_de U false s.
Proof.
  destruct s as [| c r]; [done |]. cbn [head_is_word]. intros Hc.
  rewrite sub_de_true_cons. cbn [sub_de].
  replace (de_at U false (c :: r)) with false; [done |].
  destruct r as [| c2 r]; [done |]. cbn [de_at].
  by rewrite (not_word_neq_d c Hc).
Qed.

(** A character that is copied sees the same two characters after it. *)
Lemma de_at_copied (pw : bool) (c : N) (r : str) :
  de_at U pw (c :: sub_de U (is_word U c) r) = de_at U pw (c :: r).
Proof.
  destruct (c =? ch "d")%N eqn:Ec.
  - apply N.eqb_eq in Ec. subst c. rewrite is_word_d.
    destruct r as [| c2 r]; [done |].
    rewrite sub_de_true_cons. cbn [de_at].
    destruct (c2 =? ch "e")%N eqn:Ee.
    + apply N.eqb_eq in Ee. subst c2. rewrite is_word_e.
      by rewrite head_is_word_sub_de_true.
    + by rewrite !andb_false_r.
  - destruct (sub_de U (is_word U c) r) as [| ? ?], r as [| ? ?];
      cbn [de_at]; rewrite ?Ec, ?andb_false_r; done.
Qed.

Lemma de_free_weaken (pw : bool) (s : str) :
  de_free U false s = true -> de_free U pw s = true.
Proof.
  destruct pw; [| done]. destruct s as [| c r]; [done |].
  cbn [de_free]. rewrite de_at_true. intros H.
  by apply andb_true_iff in H as [_ ->].
Qed.

Lemma de_at_space (pw : bool) (s : str) : de_at U pw (ch " " :: s) = false.
Proof.
  destruct s as [| c r]; [done |]. cbn [de_at].
  change (ch " " =? ch "d")%N with false. by rewrite andb_false_r.
Qed.

Lemma de_free_sub_de (n : nat) :
  forall (s : str) (pw : bool),
    length s <= n -> de_free U pw (sub_de U pw s) = true.
Proof.
  induction n as [| n IH]; intros s pw Hn.
  { destruct s; [done | cbn in Hn; lia]. }
  destruct s as [| c r]; [done |]. cbn [length] in Hn.
  cbn [sub_de]. destruct (de_at U pw (c :: r)) eqn:Ea.
  - destruct r as [| c2 r']; [done |].
    cbn [de_at] in Ea. apply andb_true_iff in Ea as [_ Hnext].
    apply negb_true_iff in Hnext.
    cbn [de_free]. rewrite de_at_space.
    change (is_word U (ch " ")) with false. cbn [negb andb].
    rewrite (sub_de_head_not_word r' Hnext).
    apply IH. cbn [length] in Hn. lia.
  - cbn [de_free]. rewrite de_at_copied, Ea. cbn [negb andb].
    apply IH. lia.
Qed.

Lemma sub_de_de_free (s : str) (pw : bool) :
  de_free U pw s = true -> sub_de U pw s = s.
Proof.
  revert pw. induction s as [| c r IH]; intros pw; [done |].
  cbn [de_free sub_de]. intros H. apply andb_true_iff in H as [Ha Hr].
  apply negb_true_iff in Ha. rewrite Ha. f_equal. by apply IH.
Qed.

(** *** The replaced hyphens *)

Lemma replace_hyphen (s : str) :
  replace (u "-") (u " ") s = map hyphen_to_space s.
Proof.
  unfold replace. induction s as [| c r IH]; [done |].
  cbn [replace_go map]. change (u "-") with [ch "-"] at 1.
  cbn [starts_with]. rewrite andb_true_r.
  change (length (u "-") - 1) with 0. rewrite IH.
  rewrite (N.eqb_sym (ch "-") c).
  destruct (c =? ch "-")%N eqn:E; unfold hyphen_to_space; by rewrite E.
Qed.

Lemma is_word_hyphen_to_space (c : N) :
  is_word U (hyphen_to_space c) = is_word U c.
Proof.
  unfold hyphen_to_space. destruct (c =? ch "-")%N eqn:E; [| done].
  apply N.eqb_eq in E. by subst c.
Qed.

Lemma eqb_hyphen_to_space (c x : N) :
  is_word U x = true -> (hyphen_to_space c =? x)%N = (c =? x)%N.
Proof.
  intros Hx. unfold hyphen_to_space. destruct (c =? ch "-")%N eqn:E; [| done].
  apply N.eqb_eq in E. subst c.
  destruct (ch " " =? x)%N eqn:E1, (ch "-" =? x)%N eqn:E2; try done.
  - apply N.eqb_eq in E1. by subst x.
  - apply N.eqb_eq in E2. by subst x.
Qed.

Lemma de_free_hyphen (s : str) (pw : bool) :
  de_free U pw (map hyphen_to_space s) = de_free U pw s.
Proof.
  revert pw. induction s as [| c r IH]; intros pw; [done |].
  cbn [map de_free]. rewrite is_word_hyphen_to_space, IH. f_equal. f_equal.
  destruct r as [| c2 r]; [done |]. cbn [map de_at].
  rewrite (eqb_hyphen_to_space c _ is_word_d), (eqb_hyphen_to_space c2 _ is_word_e).
  f_equal. f_equal. destruct r as [| c3 r]; [done |].
  cbn [map head_is_word]. by rewrite is_word_hyphen_to_space.
Qed.

Lemma map_hyphen_id (s : str) :
  ~ In (ch "-") s -> map hyphen_to_space s = s.
Proof.
  induction s as [| c r IH]; [done |]. cbn [map In]. intros H.
  rewrite IH by tauto. f_equal. unfold hyphen_to_space.
  destruct (c =? ch "-")%N eqn:E; [| done].
  apply N.eqb_eq in E. exfalso. apply H. by left.
Qed.

(** *** Splitting and joining *)

(** A character that is not a word character separates what is before
    from what is after, as the end of the text does. *)
Lemma de_at_app_sep (pw : bool) (a c : N) (w r : str) :
  is_word U c = false ->
  de_at U pw (a :: w ++ c :: r) = de_at U pw (a :: w).
Proof.
  intros Hc. destruct w as [| b [| b2 w]]; cbn [app de_at head_is_word].
  - by rewrite (not_word_neq_e c Hc), !andb_false_r.
  - by rewrite Hc.
  - done.
Qed.

Lemma de_free_app_sep (pw : bool) (c : N) (w r : str) :
  is_word U c = false ->
  de_free U pw (w ++ c :: r) = de_free U pw w && de_free U false r.
Proof.
  intros Hc. revert pw. induction w as [| a w IH]; intros pw.
  - cbn [app de_free]. rewrite Hc.
    replace (de_at U pw (c :: r)) with false; [done |].
    destruct r as [| c2 r]; [done |]. cbn [de_at].
    by rewrite (not_word_neq_d c Hc), !andb_false_r.
  - cbn [app de_free]. rewrite IH, (de_at_app_sep pw a c w r Hc).
    by rewrite andb_assoc.
Qed.

Lemma join_cons (sep w : str) (ws : list str) :
  join sep (w :: ws) =
  match ws with [] => w | _ :: _ => w ++ sep ++ join sep ws end.
Proof. reflexivity. Qed.

Lemma de_free_join_split (s w : str) (pw : bool) :
  (forall c, In c s -> isspace U c = true -> is_word U c = false) ->
  de_free U pw (w ++ s) = true ->
  de_free U pw (join (u " ") (split_from U w s)) = true.
Proof.
  revert w pw. induction s as [| c r IH]; intros w pw Hsp Hf.
  - rewrite app_nil_r in Hf. cbn [split_from]. by destruct w.
  - assert (forall c, In c r -> isspace U c = true -> is_word U c = false) as Hr.
    { intros x Hx. apply Hsp. by right. }
    cbn [split_from]. destruct (isspace U c) eqn:Ec.
    + assert (is_word U c = false) as Hc by (apply Hsp; [by left | done]).
      rewrite (de_free_app_sep pw c w r Hc) in Hf.
      apply andb_true_iff in Hf as [Hw Hf].
      specialize (IH [] false Hr Hf).
      destruct w as [| a w]; [by apply de_free_weaken |].
      cbn [emit app]. rewrite join_cons.
      destruct (split_from U [] r) as [| l ls]; [done |].
      change (u " " ++ join (u " ") (l :: ls))
        with (ch " " :: join (u " ") (l :: ls)).
      rewrite (de_free_app_sep pw (ch " ") (a :: w) _ eq_refl).
      by rewrite Hw, IH.
    + apply IH; [done |]. by rewrite <- app_assoc.
Qed.

Lemma split_from_tokens (s w : str) :
  forallb (fun c => negb (isspace U c)) w = true ->
  Forall (is_token U) (split_from U w s).
Proof.
  revert w. induction s as [| c r IH]; intros w Hw; cbn [split_from].
  - destruct w; [constructor |]. by repeat constructor.
  - destruct (isspace U c) eqn:Ec.
    + apply Forall_app. split; [| by apply IH].
      destruct w; [constructor |]. by repeat constructor.
    + apply IH. rewrite forallb_app, Hw. cbn. by rewrite Ec.
Qed.

Lemma split_from_app_token (w acc s : str) :
  forallb (fun c => negb (isspace U c)) w = true ->
  split_from U acc (w ++ s) = split_from U (acc ++ w) s.
Proof.
  revert acc. induction w as [| c w IH]; intros acc Hw.
  - by rewrite app_nil_r.
  - cbn [forallb] in Hw. apply andb_true_iff in Hw as [Hc Hw].
    apply negb_true_iff in Hc. cbn [app split_from]. rewrite Hc.
    rewrite IH by done. by rewrite <- app_assoc.
Qed.

Lemma split_join (ws : list str) :
  Forall (is_token U) ws -> split_ws U (join (u " ") ws) = ws.
Proof.
  unfold split_ws. induction 1 as [| w ws [Hne Hw] Hws IH]; [done |].
  rewrite join_cons. destruct ws as [| w2 ws].
  - pose proof (split_from_app_token w [] [] Hw) as E.
    rewrite app_nil_r in E. rewrite E. cbn [app split_from]. by destruct w.
  - rewrite split_from_app_token by done.
    change (u " " ++ join (u " ") (w2 :: ws))
      with (ch " " :: join (u " ") (w2 :: ws)).
    cbn [app split_from]. change (isspace U (ch " ")) with true.
    cbn iota. rewrite IH. by destruct w.
Qed.

Lemma join_split_idem (s : str) :
  join (u " ") (split_ws U (join (u " ") (split_ws U s)))
  = join (u " ") (split_ws U s).
Proof. rewrite split_join; [done |]. by apply split_from_tokens. Qed.

(** *** The characters of the result *)

Lemma sub_de_chars (P : N -> Prop) (n : nat) :
  P (ch " ") ->
  forall (s : str) (pw : bool),
    length s <= n -> Forall P s -> Forall P (sub_de U pw s).
Proof.
  intros Hsp. induction n as [| n IH]; intros s pw Hn Hs.
  { destruct s; [constructor | cbn in Hn; lia]. }
  destruct s as [| c r]; [constructor |]. cbn [length] in Hn.
  inversion Hs as [| ? ? Hc Hr]; subst. cbn [sub_de].
  destruct (de_at U pw (c :: r)).
  - constructor; [done |]. destruct r as [| c2 r']; [constructor |].
    inversion Hr; subst. apply IH; [cbn [length] in Hn; lia | done].
  - constructor; [done |]. apply IH; [lia | done].
Qed.

Lemma split_from_chars (P : N -> Prop) (s w : str) :
  Forall P w -> Forall P s -> Forall (Forall P) (split_from U w s).
Proof.
  revert w. induction s as [| c r IH]; intros w Hw Hs; cbn [split_from].
  - destruct w; cbn [emit]; [constructor | by constructor].
  - inversion Hs; subst. destruct (isspace U c).
    + apply Forall_app. split; [| by apply IH].
      destruct w; cbn [emit]; [constructor | by constructor].
    + apply IH; [| done]. apply Forall_app. by repeat constructor.
Qed.

Lemma join_chars (P : N -> Prop) (ws : list str) :
  P (ch " ") -> Forall (Forall P) ws -> Forall P (join (u " ") ws).
Proof.
  intros Hsp. induction 1 as [| w ws Hw Hws IH]; [constructor |].
  rewrite join_cons. destruct ws; [done |].
  apply Forall_app. split; [done |]. by constructor.
Qed.

(** *** Idempotence *)

Lemma plain_forallb (s : str) :
  Forall (fun c => plain c = true) s -> forallb plain s = true.
Proof. induction 1 as [| c s Hc Hs IH]; [done |]. cbn. by rewrite Hc, IH. Qed.

Lemma forallb_plain (s : str) :
  forallb plain s = true -> Forall (fun c => plain c = true) s.
Proof.
  induction s as [| c s IH]; [constructor |]. cbn [forallb].
  intros H. apply andb_true_iff in H as [Hc Hs]. constructor; auto.
Qed.

Lemma hyphen_to_space_chars (s : str) :
  Forall (fun c => plain c = true) s ->
  Forall plain_no_hyphen (map hyphen_to_space s).
Proof.
  induction 1 as [| c s Hc Hs IH]; [constructor |]. cbn [map].
  constructor; [| done]. unfold plain_no_hyphen, hyphen_to_space.
  destruct (c =? ch "-")%N eqn:E; [done |].
  apply N.eqb_neq in E. done.
Qed.

Lemma norm_nome_norm_text (x : str) :
  norm_nome U (Some x) = norm_text U (unidecode U (py_lower U x)).
Proof. cbn [norm_nome]. cbv zeta. by rewrite replace_hyphen. Qed.

Lemma sub_de_plain (t : str) :
  forallb plain t = true ->
  Forall plain_no_hyphen (map hyphen_to_space (sub_de U false t)).
Proof.
  intros Ht. apply hyphen_to_space_chars.
  apply (sub_de_chars _ (length t)); [done | done |]. by apply forallb_plain.
Qed.

Lemma norm_text_chars (t : str) :
  forallb plain t = true -> Forall plain_no_hyphen (norm_text U t).
Proof.
  intros Ht. apply join_chars; [done |].
  apply split_from_chars; [constructor | by apply sub_de_plain].
Qed.

Lemma norm_text_de_free (t : str) :
  forallb plain t = true -> de_free U false (norm_text U t) = true.
Proof.
  intros Ht. apply (de_free_join_split _ [] false).
  - intros c Hc. pose proof (sub_de_plain t Ht) as H2.
    rewrite List.Forall_forall in H2. destruct (H2 _ Hc) as [Hp _].
    apply space_not_word. by apply plain_latin1.
  - cbn [app]. rewrite de_free_hyphen. by apply (de_free_sub_de (length t)).
Qed.

(** The normaliser leaves its own result alone. *)
Lemma norm_nome_norm_text_fixed (t : str) :
  forallb plain t = true -> norm_nome U (Some (norm_text U t)) = norm_text U t.
Proof.
  intros Ht. pose proof (norm_text_chars t Ht) as Hc.
  assert (forallb plain (norm_text U t) = true) as Hp.
  { apply plain_forallb. eapply Forall_impl; [exact Hc |]. by intros c [? _]. }
  assert (~ In (ch "-") (norm_text U t)) as Hh.
  { intros H. rewrite List.Forall_forall in Hc. by destruct (Hc _ H). }
  cbn [norm_nome]. cbv zeta.
  rewrite (py_lower_plain _ Hp), (unidecode_plain _ Hp).
  rewrite (sub_de_de_free _ false (norm_text_de_free t Ht)).
  rewrite replace_hyphen, (map_hyphen_id _ Hh).
  apply join_split_idem.
Qed.

(** C8 (as the code has it): normalising twice is normalising once, for
    every text whose lower-cased transliteration is ASCII without
    upper-case letters; ASCII text and the accented Latin letters are of
    this kind. *)
Theorem norm_nome_idempotent (x : str) :
  forallb plain (unidecode U (py_lower U x)) = true ->
  norm_nome U (Some (norm_nome U (Some x))) = norm_nome U (Some x).
Proof.
  intros Ht. rewrite (norm_nome_norm_text x). by apply norm_nome_norm_text_fixed.
Qed.

(** The pound sign is transliterated to upper-case letters, whatever the
    tables beyond Latin-1 are. *)
Lemma norm_nome_pound :
  norm_nome U (Some [163%N]) = u "PS"
  /\ norm_nome U (Some (u "PS")) = u "ps".
Proof. split; vm_compute; reflexivity. Qed.

(** The transliteration of ASCII text is plain. *)
Lemma ascii_transliteration_plain (x : str) :
  forallb (fun c => (c <? 128)%N) x = true ->
  forallb plain (unidecode U (py_lower U x)) = true.
Proof.
  intros Hx.
  assert (forallb plain (map lower_latin1 x) = true) as Hp.
  { induction x as [| c x IH]; [done |]. cbn [forallb map] in *.
    apply andb_true_iff in Hx as [Hc Hx]. rewrite IH by done.
    rewrite andb_true_r. unfold lower_latin1.
    apply N.ltb_lt in Hc.
    destruct (is_ascii_upper c || _) eqn:E.
    - to_prop E. unfold plain. apply andb_true_iff. split.
      + apply N.ltb_lt. lia.
      + apply negb_true_iff. unfold is_ascii_upper, in_range.
        apply andb_false_iff. right. apply N.leb_gt. lia.
    - apply orb_false_iff in E as [E _]. unfold plain. rewrite E.
      apply andb_true_iff. split; [by apply N.ltb_lt | done]. }
  unfold py_lower.
  assert (forallb (fun c => (c <? 256)%N) x = true) as ->.
  { apply forallb_forall. intros c Hc.
    apply (proj1 (forallb_forall _ _) Hx) in Hc.
    apply N.ltb_lt in Hc. apply N.ltb_lt. lia. }
  by rewrite (unidecode_plain _ Hp).
Qed.

Lemma norm_nome_idempotent_ascii (x : str) :
  forallb (fun c => (c <? 128)%N) x = true ->
  norm_nome U (Some (norm_nome U (Some x))) = norm_nome U (Some x).
Proof.
  intros Hx. rewrite (norm_nome_norm_text x).
  by apply norm_nome_norm_text_fixed, ascii_transliteration_plain.
Qed.

(** ** The averaged price *)

Lemma precos_de_resolved (CATALOGO : catalogo) (itens : list str) :
  (forall p, p ∈ itens -> is_Some (CATALOGO !! norm_nome U (Some p))) ->
  precos_de CATALOGO (map (fun p => norm_nome U (Some p)) itens)
  = Some (map (preco_unitario U CATALOGO) itens).
Proof.
  unfold precos_de. induction itens as [| p itens IH]; intros H; [done |].
  cbn [map mapM]. rewrite IH by (intros q Hq; apply H; by right).
  assert (is_Some (CATALOGO !! norm_nome U (Some p))) as [e He]
    by (apply H; by left).
  unfold preco_unitario. rewrite He. reflexivity.
Qed.

Lemma filter_desconhecido_resolved (CATALOGO : catalogo) (itens : list str) :
  (forall p, p ∈ itens -> is_Some (CATALOGO !! norm_nome U (Some p))) ->
  List.filter (desconhecido U CATALOGO) itens = [].
Proof.
  induction itens as [| p itens IH]; intros H; [done |].
  cbn [List.filter]. unfold desconhecido at 1.
  assert (is_Some (CATALOGO !! norm_nome U (Some p))) as [e He]
    by (apply H; by left).
  rewrite He, bool_decide_eq_false_2 by done.
  apply IH. intros q Hq. apply H. by right.
Qed.

Lemma preco_resolved (CATALOGO : catalogo) (raw : str) :
  let itens := itens_de U (strip U raw) in
  let soma := soma_unitarios U CATALOGO itens in
  let n := Z.of_nat (length itens) in
  itens <> [] ->
  (forall p, p ∈ itens -> is_Some (CATALOGO !! norm_nome U (Some p))) ->
  (Z.abs soma < 2 ^ 52)%Z ->
  preco U CATALOGO (Some raw) =
    Returns
      (JObj [(u "materiais", JList (map JStr itens));
             (u "preco", JInt (rne soma n));
             (u "categoria",
              JStr (classificar_categoria U
                      (map (fun p => norm_nome U (Some p)) itens)));
             (u "detalhes",
              JObj [(u "soma_precos_unitarios", JInt soma);
                    (u "quantidade_materiais", JInt n)])],
       200)
  /\ nearest_even soma n (rne soma n).
Proof.
  intros itens soma n Hne Hres Hsmall.
  assert (0 < n)%Z as Hn.
  { unfold n. destruct itens; [done | cbn [length]; lia]. }
  split; [| by apply rne_nearest_even].
  unfold preco. rewrite preco_arg.
  destruct (strip U raw) as [| c s] eqn:Es; [done |].
  fold itens. destruct itens as [| i its] eqn:Ei; [done |].
  rewrite desconhecidos_filter.
  rewrite filter_desconhecido_resolved by done.
  rewrite precos_de_resolved by done.
  rewrite length_map. fold n.
  change (fold_left Z.add (map (preco_unitario U CATALOGO) (i :: its)) 0%Z)
    with soma.
  by rewrite (round_truediv_small soma n Hsmall Hn).
Qed.

Lemma preco_example (CATALOGO : catalogo) (d1 d2 d3 : str) :
  CATALOGO !! norm_nome U (Some (u "couro bovino"))
    = Some {| m_preco := 100; m_display := d1 |} ->
  CATALOGO !! norm_nome U (Some (u "couro de tilapia"))
    = Some {| m_preco := 50; m_display := d2 |} ->
  CATALOGO !! norm_nome U (Some (u "jeans"))
    = Some {| m_preco := 30; m_display := d3 |} ->
  preco U CATALOGO (Some (u "Couro Bovino, Couro de Tilápia, Jeans")) =
    Returns
      (JObj [(u "materiais",
              JList [JStr (u "Couro Bovino"); JStr (u "Couro de Tilápia");
                     JStr (u "Jeans")]);
             (u "preco", JInt 60);
             (u "categoria", JStr (u "Casual Urbano"));
             (u "detalhes",
              JObj [(u "soma_precos_unitarios", JInt 180);
                    (u "quantidade_materiais", JInt 3)])],
       200).
Proof.
  intros H1 H2 H3.
  set (raw := u "Couro Bovino, Couro de Tilápia, Jeans").
  assert (itens_de U (strip U raw)
          = [u "Couro Bovino"; u "Couro de Tilápia"; u "Jeans"]) as Hi
    by (vm_compute; reflexivity).
  assert (norm_nome U (Some (u "Couro Bovino"))
          = norm_nome U (Some (u "couro bovino"))) as N1 by (vm_compute; reflexivity).
  assert (norm_nome U (Some (u "Couro de Tilápia"))
          = norm_nome U (Some (u "couro de tilapia"))) as N2 by (vm_compute; reflexivity).
  assert (norm_nome U (Some (u "Jeans"))
          = norm_nome U (Some (u "jeans"))) as N3 by (vm_compute; reflexivity).
  assert (soma_unitarios U CATALOGO (itens_de U (strip U raw)) = 180%Z) as Hs.
  { rewrite Hi. unfold soma_unitarios, preco_unitario. cbn [map].
    by rewrite N1, N2, N3, H1, H2, H3. }
  destruct (preco_resolved CATALOGO raw) as [-> _].
  - by rewrite Hi.
  - rewrite Hi. intros p Hp. apply list_elem_of_In in Hp.
    destruct Hp as [<- | [<- | [<- | []]]].
    + rewrite N1, H1. by eexists.
    + rewrite N2, H2. by eexists.
    + rewrite N3, H3. by eexists.
  - by rewrite Hs.
  - rewrite Hs, Hi. reflexivity.
Qed.

(** C5 (as the code has it): when every item of the query resolves and
    the sum of the unit prices is below 2^52 in absolute value, [/preco]
    answers with the sum over the items (an item listed twice counts
    twice), the number of items, and as price the integer nearest to
    their quotient, the even one on a tie; the query of the example gets
    sum 180, count 3, price 60 and "Casual Urbano". *)
Theorem preco_average :
  (forall (CATALOGO : catalogo) (raw : str),
     let itens := itens_de U (strip U raw) in
     let soma := soma_unitarios U CATALOGO itens in
     let n := Z.of_nat (length itens) in
     itens <> [] ->
     (forall p, p ∈ itens -> is_Some (CATALOGO !! norm_nome U (Some p))) ->
     (Z.abs soma < 2 ^ 52)%Z ->
     preco U CATALOGO (Some raw) =
       Returns
         (JObj [(u "materiais", JList (map JStr itens));
                (u "preco", JInt (rne soma n));
                (u "categoria",
                 JStr (classificar_categoria U
                         (map (fun p => norm_nome U (Some p)) itens)));
                (u "detalhes",
                 JObj [(u "soma_precos_unitarios", JInt soma);
                       (u "quantidade_materiais", JInt n)])],
          200)
     /\ nearest_even soma n (rne soma n))
  /\ (forall (CATALOGO : catalogo) (d1 d2 d3 : str),
        CATALOGO !! norm_nome U (Some (u "couro bovino"))
          = Some {| m_preco := 100; m_display := d1 |} ->
        CATALOGO !! norm_nome U (Some (u "couro de tilapia"))
          = Some {| m_preco := 50; m_display := d2 |} ->
        CATALOGO !! norm_nome U (Some (u "jeans"))
          = Some {| m_preco := 30; m_display := d3 |} ->
        preco U CATALOGO (Some (u "Couro Bovino, Couro de Tilápia, Jeans")) =
          Returns
            (JObj [(u "materiais",
                    JList [JStr (u "Couro Bovino"); JStr (u "Couro de Tilápia");
                           JStr (u "Jeans")]);
                   (u "preco", JInt 60);
                   (u "categoria", JStr (u "Casual Urbano"));
                   (u "detalhes",
                    JObj [(u "soma_precos_unitarios", JInt 180);
                          (u "quantidade_materiais", JInt 3)])],
             200)).
Proof. split; [exact preco_resolved | exact preco_example]. Qed.

End Properties.

(** * Further properties of the code *)

Section Edges.
Variable U : UnicodeData.

(** ** Blank text *)

Lemma lstrip_blank (s : str) : forallb (isspace U) s = true -> lstrip U s = [].
Proof.
  induction s as [| c r IH]; [done |]. cbn [forallb lstrip].
  intros H. apply andb_true_iff in H as [-> Hr]. by apply IH.
Qed.

Lemma strip_blank (s : str) : forallb (isspace U) s = true -> strip U s = [].
Proof. intros H. unfold strip, rstrip. rewrite (lstrip_blank s H). reflexivity. Qed.

(** A text whose first and last characters are not whitespace is its own
    [strip]. *)
Lemma lstrip_head (c : N) (r : str) :
  isspace U c = false -> lstrip U (c :: r) = c :: r.
Proof. intros H. cbn [lstrip]. by rewrite H. Qed.

Lemma lstrip_suffix (s : str) :
  exists ws, s = ws ++ lstrip U s /\ forallb (isspace U) ws = true.
Proof.
  induction s as [| c r (ws & Hs & Hws)]; [by exists [] |].
  cbn [lstrip]. destruct (isspace U c) eqn:E.
  - exists (c :: ws). cbn [forallb app]. rewrite E, Hws. split; [by f_equal | done].
  - by exists [].
Qed.

Lemma lstrip_lstrip (s : str) : lstrip U (lstrip U s) = lstrip U s.
Proof.
  induction s as [| c r IH]; [done |]. cbn [lstrip].
  destruct (isspace U c) eqn:E; [done |]. by apply lstrip_head.
Qed.

Lemma rstrip_snoc (s : str) (c : N) :
  isspace U c = false -> rstrip U (s ++ [c]) = s ++ [c].
Proof.
  intros H. unfold rstrip. rewrite rev_unit, (lstrip_head c _ H).
  by rewrite <- rev_unit, rev_involutive.
Qed.

(** [strip] returns the empty text or a text that starts and ends with a
    character that is not whitespace. *)
Lemma strip_shape (s : str) :
  strip U s = []
  \/ exists c r d, strip U s = c :: r /\ isspace U c = false
                   /\ strip U s = removelast (strip U s) ++ [d]
                   /\ isspace U d = false.
Proof.
  unfold strip, rstrip.
  destruct (lstrip_suffix (rev (lstrip U s))) as (ws & Hrev & Hws).
  set (a := lstrip U s) in *. set (b := lstrip U (rev a)) in *.
  destruct b as [| d b'] eqn:Eb; [by left | right].
  assert (isspace U d = false) as Hd.
  { destruct (isspace U d) eqn:E; [| done].
    assert (lstrip U b = b) as Hb by (unfold b; apply lstrip_lstrip).
    rewrite Eb in Hb. cbn [lstrip] in Hb. rewrite E in Hb.
    destruct (lstrip_suffix b') as (ws' & Hb' & _).
    apply (f_equal (@length N)) in Hb. apply (f_equal (@length N)) in Hb'.
    rewrite length_app in Hb'. cbn [length] in Hb. exfalso. clear - Hb Hb'. lia. }
  assert (a = rev b' ++ d :: rev ws) as Ha.
  { rewrite <- (rev_involutive a), Hrev, rev_app_distr. cbn [rev].
    by rewrite <- app_assoc. }
  cbn [rev].
  destruct (rev b') as [| c r] eqn:Er.
  - exists d, [], d. cbn. done.
  - exists c, (r ++ [d]), d. cbn [app]. repeat split; try done.
    + assert (lstrip U a = a) as Hl by (unfold a; apply lstrip_lstrip).
      rewrite Ha in Hl. cbn [app lstrip] in Hl.
      destruct (isspace U c) eqn:E; [| done].
      remember (r ++ d :: rev ws) as t eqn:Et. clear Et.
      destruct (lstrip_suffix t) as (ws' & Hb' & _).
      apply (f_equal (@length N)) in Hl. apply (f_equal (@length N)) in Hb'.
      rewrite length_app in Hb'. cbn [length] in Hl. exfalso. lia.
    + change (c :: r ++ [d]) with ((c :: r) ++ [d]).
      by rewrite removelast_last.
Qed.

Lemma strip_strip (s : str) : strip U (strip U s) = strip U s.
Proof.
  destruct (strip_shape s) as [-> | (c & r & d & Hc & Ec & Hd & Ed)]; [done |].
  unfold strip at 1. rewrite Hc, (lstrip_head c r Ec), <- Hc, Hd.
  by apply rstrip_snoc.
Qed.

Lemma strip_fixed (c d : N) (r p : str) :
  isspace U c = false -> isspace U d = false ->
  c :: r = p ++ [d] -> strip U (c :: r) = c :: r.
Proof.
  intros Hc Hd E. unfold strip. rewrite (lstrip_head c r Hc), E.
  by apply rstrip_snoc.
Qed.

Lemma strip_nil_blank (s : str) : strip U s = [] -> forallb (isspace U) s = true.
Proof.
  unfold strip, rstrip. intros H.
  apply (f_equal (@rev N)) in H. rewrite rev_involutive in H. cbn [rev] in H.
  destruct (lstrip_suffix (rev (lstrip U s))) as (ws & E & Hws).
  rewrite H, app_nil_r in E.
  assert (forallb (isspace U) (lstrip U s) = true) as Ha.
  { rewrite <- (rev_involutive (lstrip U s)), E.
    apply forallb_forall. intros x Hx. apply in_rev in Hx.
    by apply (proj1 (forallb_forall _ _) Hws). }
  assert (lstrip U s = []) as Hl.
  { rewrite <- lstrip_lstrip. by apply lstrip_blank. }
  destruct (lstrip_suffix s) as (ws' & E' & Hws').
  rewrite Hl, app_nil_r in E'. by rewrite E'.
Qed.

(** ** Util: URL CSV do Google Sheets *)

Lemma starts_with_app (p s : str) : starts_with p (p ++ s) = true.
Proof. induction p as [| a p IH]; [done |]. cbn. by rewrite N.eqb_refl, IH. Qed.

Lemma contains_app (sub a b : str) : contains sub (a ++ sub ++ b) = true.
Proof.
  induction a as [| c a IH].
  - cbn [app]. destruct (sub ++ b) eqn:E; cbn [contains]; rewrite <- E;
      by rewrite starts_with_app.
  - cbn [app contains]. by rewrite IH, orb_true_r.
Qed.

Lemma to_csv_url_fixed (url : str) :
  contains (u "output=csv") url = true -> to_csv_url url = url.
Proof. intros H. destruct url as [| c r]; [done |]. unfold to_csv_url. by rewrite H. Qed.

(** X1: the adapter applied twice is the adapter applied once. *)
Theorem to_csv_url_idempotent (url : str) :
  to_csv_url (to_csv_url url) = to_csv_url url.
Proof.
  destruct url as [| c r]; [done |].
  destruct (contains (u "output=csv") (c :: r)) eqn:E1.
  { by rewrite !(to_csv_url_fixed (c :: r) E1). }
  destruct (contains (u "/pubhtml") (c :: r)) eqn:E2.
  - apply to_csv_url_fixed. unfold to_csv_url. rewrite E1, E2. cbv zeta.
    rewrite <- (app_nil_r (u "output=csv")), app_assoc. apply contains_app.
  - assert (to_csv_url (c :: r) = c :: r) as E
      by (unfold to_csv_url; by rewrite E1, E2).
    by rewrite !E.
Qed.

Lemma to_csv_url_nil (url : str) : to_csv_url url = [] -> url = [].
Proof.
  destruct url as [| c r]; [done |]. unfold to_csv_url.
  destruct (contains (u "output=csv") (c :: r)); [done |].
  destruct (contains (u "/pubhtml") (c :: r)); [| done].
  cbv zeta. intros H. apply app_eq_nil in H as [_ H].
  apply app_eq_nil in H as [_ H]. discriminate H.
Qed.

(** X2: a published-page URL comes out as a CSV export URL, and only the
    empty URL comes out empty. *)
Theorem to_csv_url_export (url : str) :
  (to_csv_url url = [] <-> url = [])
  /\ (contains (u "/pubhtml") url = true ->
      contains (u "output=csv") (to_csv_url url) = true).
Proof.
  split.
  - split; [apply to_csv_url_nil | by intros ->].
  - intros H. destruct url as [| c r]; [done |]. unfold to_csv_url.
    destruct (contains (u "output=csv") (c :: r)) eqn:E1; [done |].
    rewrite H. cbv zeta.
    rewrite <- (app_nil_r (u "output=csv")), app_assoc. apply contains_app.
Qed.

(** ** The shape of a normalised name *)

Lemma hyphen_to_space_no_hyphen (s : str) :
  Forall (fun c => c <> ch "-") (map hyphen_to_space s).
Proof.
  induction s as [| c s IH]; [constructor |]. cbn [map]. constructor; [| done].
  unfold hyphen_to_space. destruct (c =? ch "-")%N eqn:E; [done |].
  by apply N.eqb_neq in E.
Qed.

(** X3: a normalised name has no hyphen. *)
Theorem norm_nome_no_hyphen (txt : option str) :
  Forall (fun c => c <> ch "-") (norm_nome U txt).
Proof.
  destruct txt as [x |]; [| constructor].
  cbn [norm_nome]. cbv zeta. rewrite replace_hyphen.
  apply join_chars; [done |].
  apply split_from_chars; [constructor | apply hyphen_to_space_no_hyphen].
Qed.

Lemma join_last (ws : list str) :
  Forall (is_token U) ws -> ws <> [] ->
  exists p d, join (u " ") ws = p ++ [d] /\ isspace U d = false.
Proof.
  induction 1 as [| w ws [Hne Hw] Hws IH]; [done |]. intros _.
  rewrite join_cons. destruct ws as [| w2 ws].
  - destruct (exists_last Hne) as (p & d & ->). exists p, d. split; [done |].
    rewrite forallb_app in Hw. apply andb_true_iff in Hw as [_ Hd].
    cbn in Hd. rewrite andb_true_r in Hd. by apply negb_true_iff.
  - destruct IH as (p & d & E & Hd); [done |].
    exists (w ++ u " " ++ p), d. split; [| done].
    by rewrite E, <- !app_assoc.
Qed.

Lemma strip_join (ws : list str) :
  Forall (is_token U) ws -> strip U (join (u " ") ws) = join (u " ") ws.
Proof.
  intros H. destruct ws as [| w ws]; [done |].
  destruct (join_last (w :: ws) H) as (p & d & E & Hd); [done |].
  inversion H as [| ? ? [Hne Hw] _]; subst.
  destruct w as [| c w]; [done |].
  assert (isspace U c = false) as Hc.
  { cbn [forallb] in Hw. apply andb_true_iff in Hw as [Hc _].
    by apply negb_true_iff. }
  assert (exists r, join (u " ") ((c :: w) :: ws) = c :: r) as [r Er].
  { rewrite join_cons. destruct ws; eauto. }
  rewrite Er in *. by apply (strip_fixed c d r p).
Qed.

(** X4: a normalised name is trimmed and its words are separated by single
    spaces: trimming it, or splitting and joining it again, changes
    nothing. *)
Theorem norm_nome_collapsed (txt : option str) :
  strip U (norm_nome U txt) = norm_nome U txt
  /\ join (u " ") (split_ws U (norm_nome U txt)) = norm_nome U txt.
Proof.
  destruct txt as [x |]; [| done].
  cbn [norm_nome]. cbv zeta. split.
  - apply strip_join. by apply split_from_tokens.
  - apply join_split_idem.
Qed.

(** ** Blank input *)

(** X5: a missing or blank price cell parses to nothing. *)
Theorem parse_preco_blank (v : option str) :
  forallb (isspace U) (default [] v) = true -> parse_preco U v = Returns None.
Proof.
  destruct v as [v |]; [| done]. cbn [default]. intros H.
  unfold parse_preco. by rewrite (strip_blank v H).
Qed.

(** X6: without the parameter, or with a blank one, [/preco] answers 400. *)
Theorem preco_blank (CATALOGO : catalogo) (materiais : option str) :
  forallb (isspace U) (default [] materiais) = true ->
  preco U CATALOGO materiais =
    Returns (JObj [(u "erro", JStr (u "Materiais não informados"))], 400).
Proof.
  intros H. unfold preco.
  assert (strip U (default [] (py_or materiais (Some []))) = []) as ->; [| done].
  destruct materiais as [[| c r] |]; [done | | done].
  cbn [py_or default] in *. by apply strip_blank.
Qed.

Lemma split_on_incl (sep : N) (s w : str) (x : N) :
  In w (split_on sep s) -> In x w -> In x s /\ x <> sep.
Proof.
  revert w. induction s as [| c r IH]; intros w; cbn [split_on].
  - intros [<- | []] [].
  - destruct (c =? sep)%N eqn:E.
    + intros [<- | Hw]; [intros [] |]. intros Hx.
      destruct (IH w Hw Hx). split; [by right | done].
    + apply N.eqb_neq in E.
      destruct (split_on sep r) as [| w0 ws] eqn:Es.
      * intros [<- | []] [<- | []]. split; [by left | done].
      * intros [<- | Hw].
        -- intros [<- | Hx]; [split; [by left | done] |].
           destruct (IH w0 (or_introl eq_refl) Hx). split; [by right | done].
        -- intros Hx. destruct (IH w (or_intror Hw) Hx). split; [by right | done].
Qed.

(** X7: the items of a query are not empty, are trimmed and hold no comma. *)
Theorem itens_de_shape (materiais_str p : str) :
  p ∈ itens_de U materiais_str ->
  p <> [] /\ strip U p = p /\ (ch "," ∉ p) /\ (forall c, c ∈ p -> c ∈ materiais_str).
Proof.
  unfold itens_de. intros H. apply list_elem_of_In, in_map_iff in H as (q & <- & Hq).
  apply filter_In in Hq as [Hq Hne].
  apply negb_true_iff, bool_decide_eq_false in Hne.
  repeat split; [done | apply strip_strip | |].
  - intros Hc. apply list_elem_of_In, strip_incl in Hc.
    by destruct (split_on_incl _ _ _ _ Hq Hc).
  - intros c Hc. apply list_elem_of_In, strip_incl in Hc.
    apply list_elem_of_In. by destruct (split_on_incl _ _ _ _ Hq Hc).
Qed.

Lemma filter_none {A : Type} (f : A -> bool) (l : list A) :
  (forall x, In x l -> f x = false) -> List.filter f l = [].
Proof.
  induction l as [| a l IH]; [done |]. intros H. cbn [List.filter].
  rewrite (H a) by (by left). apply IH. intros x Hx. apply H. by right.
Qed.

(** X8: a parameter made of commas and whitespace only names no material:
    [/preco] answers 400. *)
Theorem preco_only_separators (CATALOGO : catalogo) (raw : str) :
  strip U raw <> [] ->
  (forall c, In c raw -> c = ch "," \/ isspace U c = true) ->
  preco U CATALOGO (Some raw) =
    Returns (JObj [(u "erro", JStr (u "Nenhum material válido informado"))], 400).
Proof.
  intros Hne Hsep. unfold preco. rewrite preco_arg.
  destruct (strip U raw) as [| c s] eqn:Es; [done |].
  assert (itens_de U (c :: s) = []) as ->; [| done].
  unfold itens_de. rewrite filter_none; [done |].
  intros q Hq. apply negb_false_iff, bool_decide_eq_true, strip_blank.
  apply forallb_forall. intros x Hx.
  destruct (split_on_incl _ _ _ _ Hq Hx) as [Hin Hx'].
  rewrite <- Es in Hin. apply strip_incl in Hin.
  by destruct (Hsep x Hin).
Qed.

(** ** A service that is not configured *)

(** X9: the load stops at the warning exactly when the environment variable
    is missing or blank; the catalogue is then empty, whatever the
    network would answer. *)
Theorem carregar_catalogo_not_configured (w : world) (CATALOGO : catalogo) :
  ((carregar_catalogo U w CATALOGO).2 = Returns LogWarning
   <-> forallb (isspace U) (default [] (getenv_MATERIAIS_URL w)) = true)
  /\ (forallb (isspace U) (default [] (getenv_MATERIAIS_URL w)) = true ->
      carregar_catalogo U w CATALOGO = (∅, Returns LogWarning)).
Proof.
  assert (forallb (isspace U) (default [] (getenv_MATERIAIS_URL w)) = true ->
          carregar_catalogo U w CATALOGO = (∅, Returns LogWarning)) as Hblank.
  { intros H. unfold carregar_catalogo, MATERIAIS_URL.
    by rewrite (strip_blank _ H). }
  split; [| done]. split; [| by intros H; rewrite (Hblank H)].
  unfold carregar_catalogo. cbv zeta.
  destruct (to_csv_url (MATERIAIS_URL U w)) as [| c url] eqn:E.
  - intros _. apply strip_nil_blank.
    by apply to_csv_url_nil in E.
  - destruct (requests_get w (c :: url)) as [| rows]; [done |].
    by destruct (carregar_linhas U rows 0 0 ∅) as [cat [[? ?] |]].
Qed.

End Edges.

Section Keys.
Variable U : UnicodeData.

(** ** What the key of a name does not depend on *)

Lemma py_lower_latin1 (x : str) :
  latin1 x = true -> py_lower U x = map lower_latin1 x.
Proof. unfold py_lower, latin1. by intros ->. Qed.

Lemma lower_latin1_bound (c : N) :
  (c <? 256)%N = true -> (lower_latin1 c <? 256)%N = true.
Proof.
  intros H. apply N.ltb_lt in H. apply N.ltb_lt. unfold lower_latin1.
  destruct (is_ascii_upper c || _) eqn:E; [| done].
  unfold is_ascii_upper, in_range in E.
  repeat first [ rewrite orb_true_iff in E | rewrite andb_true_iff in E
               | rewrite N.leb_le in E ].
  lia.
Qed.

Lemma lower_latin1_idem (c : N) : lower_latin1 (lower_latin1 c) = lower_latin1 c.
Proof.
  unfold lower_latin1.
  destruct (is_ascii_upper c || _) eqn:E; [| by rewrite E].
  destruct (is_ascii_upper (c + 32) || _) eqn:E'; [exfalso | done].
  unfold is_ascii_upper, in_range in E, E'.
  repeat first [ rewrite orb_true_iff in E | rewrite andb_true_iff in E
               | rewrite N.leb_le in E
               | rewrite orb_true_iff in E' | rewrite andb_true_iff in E'
               | rewrite N.leb_le in E' ].
  lia.
Qed.

Lemma latin1_lower (x : str) : latin1 x = true -> latin1 (map lower_latin1 x) = true.
Proof.
  unfold latin1. induction x as [| c x IH]; [done |]. cbn [forallb map].
  intros H. apply andb_true_iff in H as [Hc Hx].
  by rewrite (lower_latin1_bound c Hc), IH.
Qed.

(** X10: letter case: lower-casing a Latin-1 name first gives the same key. *)
Theorem norm_nome_lower (x : str) :
  latin1 x = true ->
  norm_nome U (Some (py_lower U x)) = norm_nome U (Some x).
Proof.
  intros Hx.
  assert (py_lower U (py_lower U x) = py_lower U x) as E.
  { rewrite (py_lower_latin1 x Hx), (py_lower_latin1 _ (latin1_lower x Hx)).
    rewrite map_map. apply map_ext. intros c. apply lower_latin1_idem. }
  cbn [norm_nome]. by rewrite E.
Qed.

(** *** Hyphens *)

Lemma de_at_hyphen (pw : bool) (s : str) :
  de_at U pw (map hyphen_to_space s) = de_at U pw s.
Proof.
  destruct s as [| c [| c2 r]]; [done | done |]. cbn [map de_at].
  rewrite (eqb_hyphen_to_space U c _ (is_word_d U)),
    (eqb_hyphen_to_space U c2 _ (is_word_e U)).
  f_equal. f_equal. destruct r as [| c3 r]; [done |].
  cbn [map head_is_word]. by rewrite is_word_hyphen_to_space.
Qed.

Lemma sub_de_hyphen_eq (n : nat) :
  forall (t1 t2 : str) (pw : bool),
    length t1 <= n ->
    map hyphen_to_space t1 = map hyphen_to_space t2 ->
    map hyphen_to_space (sub_de U pw t1) = map hyphen_to_space (sub_de U pw t2).
Proof.
  induction n as [| n IH]; intros t1 t2 pw Hn E.
  { destruct t1; [| cbn in Hn; lia]. by destruct t2. }
  destruct t1 as [| c1 r1], t2 as [| c2 r2]; try done.
  cbn [map] in E. injection E as Ec Er. cbn [length] in Hn.
  assert (de_at U pw (c1 :: r1) = de_at U pw (c2 :: r2)) as Ea.
  { rewrite <- (de_at_hyphen pw (c1 :: r1)), <- (de_at_hyphen pw (c2 :: r2)).
    cbn [map]. by rewrite Ec, Er. }
  cbn [sub_de]. rewrite <- Ea. destruct (de_at U pw (c1 :: r1)).
  - cbn [map]. f_equal.
    destruct r1 as [| e1 r1'], r2 as [| e2 r2']; try done.
    cbn [map] in Er. injection Er as _ Er. apply IH; [cbn [length] in Hn; lia | done].
  - cbn [map]. rewrite Ec. f_equal.
    assert (is_word U c1 = is_word U c2) as ->.
    { by rewrite <- (is_word_hyphen_to_space U c1), Ec, is_word_hyphen_to_space. }
    apply IH; [lia | done].
Qed.

Lemma unidecode_hyphen (s : str) :
  map hyphen_to_space (unidecode U (map hyphen_to_space s))
  = map hyphen_to_space (unidecode U s).
Proof.
  unfold unidecode. induction s as [| c s IH]; [done |].
  cbn [map flat_map]. rewrite !map_app, IH. f_equal.
  unfold hyphen_to_space at 2. destruct (c =? ch "-")%N eqn:E; [| done].
  apply N.eqb_eq in E. by subst c.
Qed.

Lemma lower_latin1_hyphen (c : N) :
  lower_latin1 (hyphen_to_space c) = hyphen_to_space (lower_latin1 c).
Proof.
  unfold hyphen_to_space at 1. destruct (c =? ch "-")%N eqn:E.
  - apply N.eqb_eq in E. by subst c.
  - apply N.eqb_neq in E. unfold hyphen_to_space.
    destruct (lower_latin1 c =? ch "-")%N eqn:E'; [exfalso | done].
    apply N.eqb_eq in E'. change (ch "-") with 45%N in *.
    unfold lower_latin1 in E'.
    destruct (is_ascii_upper c || _) eqn:Eu; [| done].
    unfold is_ascii_upper, in_range in Eu.
    repeat first [ rewrite orb_true_iff in Eu | rewrite andb_true_iff in Eu
                 | rewrite N.leb_le in Eu ].
    lia.
Qed.

Lemma latin1_hyphen (x : str) :
  latin1 x = true -> latin1 (map hyphen_to_space x) = true.
Proof.
  unfold latin1. induction x as [| c x IH]; [done |]. cbn [forallb map].
  intros H. apply andb_true_iff in H as [Hc Hx]. rewrite IH by done.
  rewrite andb_true_r. unfold hyphen_to_space.
  by destruct (c =? ch "-")%N.
Qed.

(** X11: hyphens: writing spaces for the hyphens of a Latin-1 name gives the
    same key. *)
Theorem norm_nome_hyphen (x : str) :
  latin1 x = true ->
  norm_nome U (Some (replace (u "-") (u " ") x)) = norm_nome U (Some x).
Proof.
  intros Hx. rewrite replace_hyphen. cbn [norm_nome]. cbv zeta.
  rewrite !replace_hyphen. do 2 f_equal.
  apply (sub_de_hyphen_eq (length (unidecode U (py_lower U (map hyphen_to_space x))))); [done |].
  assert (py_lower U (map hyphen_to_space x) = map hyphen_to_space (py_lower U x))
    as ->.
  { rewrite (py_lower_latin1 x Hx), (py_lower_latin1 _ (latin1_hyphen x Hx)).
    rewrite !map_map. apply map_ext. intros c. apply lower_latin1_hyphen. }
  apply unidecode_hyphen.
Qed.

(** *** The connector "de" *)

Lemma sub_de_app_sep (n : nat) (c : N) (r : str) :
  is_word U c = false ->
  forall (w : str) (pw : bool),
    length w <= n ->
    sub_de U pw (w ++ c :: r) = sub_de U pw w ++ c :: sub_de U false r.
Proof.
  intros Hc. induction n as [| n IH]; intros w pw Hn.
  - destruct w; [| cbn in Hn; lia]. cbn [app sub_de].
    replace (de_at U pw (c :: r)) with false; [by rewrite Hc |].
    destruct r as [| c2 r]; [done |]. cbn [de_at].
    by rewrite (not_word_neq_d U c Hc), !andb_false_r.
  - destruct w as [| a w].
    { apply (IH [] pw). cbn. lia. }
    cbn [length] in Hn. cbn [app sub_de].
    rewrite (de_at_app_sep U pw a c w r Hc).
    destruct (de_at U pw (a :: w)) eqn:Ea.
    + destruct w as [| e w']; [done |]. cbn [app].
      rewrite IH by (cbn [length] in Hn; lia). done.
    + rewrite IH by lia. done.
Qed.

Lemma split_from_app_space (c : N) (s r acc : str) :
  isspace U c = true ->
  split_from U acc (s ++ c :: r) = split_from U acc s ++ split_from U [] r.
Proof.
  intros Hc. revert acc. induction s as [| a s IH]; intros acc.
  - cbn [app split_from]. by rewrite Hc.
  - cbn [app split_from]. destruct (isspace U a).
    + by rewrite IH, app_assoc.
    + apply IH.
Qed.

Lemma latin1_app (a b : str) : latin1 (a ++ b) = latin1 a && latin1 b.
Proof. apply forallb_app. Qed.

(** X12: the connector: a Latin-1 name with the word "de" between two of its
    words has the key of the name without it. *)
Theorem norm_nome_particle (a b : str) :
  latin1 a = true -> latin1 b = true ->
  norm_nome U (Some (a ++ u " de " ++ b)) = norm_nome U (Some (a ++ u " " ++ b)).
Proof.
  intros Ha Hb. cbn [norm_nome]. cbv zeta. rewrite !replace_hyphen.
  rewrite !py_lower_latin1
    by (rewrite !latin1_app, Ha, Hb; reflexivity).
  rewrite !map_app. unfold unidecode. rewrite !flat_map_app.
  set (A := flat_map (unidecode_char U) (map lower_latin1 a)).
  set (B := flat_map (unidecode_char U) (map lower_latin1 b)).
  change (flat_map (unidecode_char U) (map lower_latin1 (u " de ")))
    with (ch " " :: [ch "d"; ch "e"] ++ [ch " "]).
  change (flat_map (unidecode_char U) (map lower_latin1 (u " ")))
    with [ch " "].
  cbn [app].
  rewrite (sub_de_app_sep (length A) (ch " ") _ eq_refl A false) by done.
  rewrite (sub_de_app_sep (length A) (ch " ") _ eq_refl A false) by done.
  change (ch "d" :: ch "e" :: ch " " :: B) with ([ch "d"; ch "e"] ++ ch " " :: B).
  rewrite (sub_de_app_sep 2 (ch " ") _ eq_refl [ch "d"; ch "e"] false) by done.
  change (sub_de U false [ch "d"; ch "e"]) with [ch " "].
  cbn [app]. rewrite !map_app. cbn [map].
  change (hyphen_to_space (ch " ")) with (ch " ").
  unfold split_ws.
  rewrite !(split_from_app_space (ch " ") _ _ [] eq_refl).
  f_equal.
Qed.

End Keys.

Section Parser.
Variable U : UnicodeData.

(** ** When the price parser raises *)





(** ** Prices written with digits and thousands dots *)

Lemma strip_no_space (s : str) :
  forallb (fun c => negb (isspace U c)) s = true -> strip U s = s.
Proof.
  intros H.
  assert (forall t, forallb (fun c => negb (isspace U c)) t = true ->
                    lstrip U t = t) as Hl.
  { intros [| c r]; [done |]. cbn [forallb lstrip]. intros Ht.
    apply andb_true_iff in Ht as [Hc _]. apply negb_true_iff in Hc.
    by rewrite Hc. }
  unfold strip, rstrip. rewrite (Hl s H), Hl; [apply rev_involutive |].
  apply forallb_forall. intros x Hx. apply in_rev in Hx.
  by apply (proj1 (forallb_forall _ _) H).
Qed.

Lemma c_strip_no_space (s : str) :
  forallb (fun c => negb (c_isspace c)) s = true -> c_strip s = s.
Proof.
  intros H.
  assert (forall t, forallb (fun c => negb (c_isspace c)) t = true ->
                    c_lstrip t = t) as Hl.
  { intros [| c r]; [done |]. cbn [forallb c_lstrip]. intros Ht.
    apply andb_true_iff in Ht as [Hc _]. apply negb_true_iff in Hc.
    by rewrite Hc. }
  unfold c_strip. rewrite (Hl s H), Hl; [apply rev_involutive |].
  apply forallb_forall. intros x Hx. apply in_rev in Hx.
  by apply (proj1 (forallb_forall _ _) H).
Qed.

Lemma replace_remove (a : N) (s : str) :
  replace [a] [] s = List.filter (fun c => negb (c =? a)%N) s.
Proof.
  unfold replace. induction s as [| c r IH]; [done |].
  cbn [replace_go List.filter starts_with length Nat.sub app].
  rewrite andb_true_r, (N.eqb_sym a c), IH. by destruct (c =? a)%N.
Qed.

Lemma replace_absent (a : N) (new s : str) :
  ~ In a s -> replace [a] new s = s.
Proof.
  unfold replace. induction s as [| c r IH]; [done |]. intros H.
  cbn [replace_go starts_with]. rewrite andb_true_r.
  destruct (a =? c)%N eqn:E.
  - apply N.eqb_eq in E. exfalso. apply H. by left.
  - f_equal. apply IH. intros Hr. apply H. by right.
Qed.

Lemma drop_underscores_digits (s : str) (prev : N) :
  (prev =? ch "_")%N = false ->
  forallb is_ascii_digit s = true -> drop_underscores prev s = Some s.
Proof.
  revert prev. induction s as [| c r IH]; intros prev Hp Hs; cbn [drop_underscores].
  - by rewrite Hp.
  - cbn [forallb] in Hs. apply andb_true_iff in Hs as [Hc Hr].
    assert ((c =? ch "_")%N = false) as Hu.
    { apply N.eqb_neq. intros ->. discriminate Hc. }
    rewrite Hu, Hc, Hp. cbn [negb andb]. by rewrite (IH c Hu Hr).
Qed.

Lemma span_digits_all (s : str) :
  forallb is_ascii_digit s = true ->
  span_digits s = (map (fun c => Z.of_N (c - 48)) s, []).
Proof.
  induction s as [| c r IH]; [done |]. cbn [forallb span_digits map].
  intros H. apply andb_true_iff in H as [-> Hr]. by rewrite (IH Hr).
Qed.

Lemma py_float_digits (s : str) :
  s <> [] -> forallb is_ascii_digit s = true ->
  py_float U s =
    Some (to_binary64 false
            (digits_value (map (fun c => Z.of_N (c - 48)) s) * 10 ^ 0) 1).
Proof.
  intros Hne Hs.
  assert (forall c, In c s -> (48 <= c <= 57)%N) as Hr.
  { intros c Hc. apply (proj1 (forallb_forall _ _) Hs) in Hc.
    unfold is_ascii_digit, in_range in Hc.
    apply andb_true_iff in Hc as [H1 H2].
    apply N.leb_le in H1. apply N.leb_le in H2. lia. }
  unfold py_float, number_text.
  assert (forallb (fun c => (c <? 128)%N) s = true) as ->.
  { apply forallb_forall. intros c Hc. apply N.ltb_lt. specialize (Hr c Hc). lia. }
  rewrite c_strip_no_space.
  2:{ apply forallb_forall. intros c Hc. specialize (Hr c Hc).
      apply negb_true_iff. unfold c_isspace, in_range.
      apply orb_false_iff. split; [apply andb_false_iff; right; apply N.leb_gt; lia |].
      apply N.eqb_neq. lia. }
  rewrite (drop_underscores_digits s 0 eq_refl Hs).
  destruct s as [| c r]; [done |].
  pose proof (Hr c (or_introl eq_refl)) as Hc.
  assert (take_sign (c :: r) = (false, c :: r)) as ->.
  { cbn [take_sign].
    rewrite (proj2 (N.eqb_neq c (ch "-"))), (proj2 (N.eqb_neq c (ch "+")));
      [done | |]; change (ch "+") with 43%N; change (ch "-") with 45%N; lia. }
  assert (ascii_lower c = c) as Hl.
  { unfold ascii_lower, is_ascii_upper, in_range.
    rewrite (proj2 (N.leb_gt 65 c)); [done | lia]. }
  cbn [map]. rewrite Hl.
  rewrite !bool_decide_eq_false_2.
  2-4: (intros E; injection E as E _; vm_compute in E; lia).
  cbn [orb]. unfold parse_decimal. rewrite (span_digits_all (c :: r) Hs).
  rewrite app_nil_r. cbn [map parse_exponent length Z.of_nat].
  reflexivity.
Qed.

(** X14: a cell made of ASCII digits and full stops is read as the number
    its digits spell, the full stops being thousands separators, as long
    as that number is below 2^52. *)
Theorem parse_preco_digits (cell : str) :
  (forall c, In c cell -> is_ascii_digit c = true \/ c = ch ".") ->
  digit_values cell <> [] ->
  (digits_value (digit_values cell) < 2 ^ 52)%Z ->
  parse_preco U (Some cell) = Returns (Some (digits_value (digit_values cell))).
Proof.
  intros Hcell Hne Hsmall. unfold parse_preco.
  assert (forall c, In c cell -> (48 <= c <= 57)%N \/ c = 46%N) as Hr.
  { intros c Hc. destruct (Hcell c Hc) as [Hd | ->]; [left | by right].
    unfold is_ascii_digit, in_range in Hd.
    apply andb_true_iff in Hd as [H1 H2].
    apply N.leb_le in H1. apply N.leb_le in H2. lia. }
  rewrite strip_no_space.
  2:{ apply forallb_forall. intros c Hc. apply negb_true_iff.
      unfold isspace. assert ((c <? 256)%N = true) as -> by
        (apply N.ltb_lt; destruct (Hr c Hc); lia).
      unfold in_range.
      repeat (apply orb_false_iff; split);
        first [ apply andb_false_iff; right; apply N.leb_gt; destruct (Hr c Hc); lia
              | apply N.eqb_neq; destruct (Hr c Hc); lia ]. }
  destruct cell as [| c0 s] eqn:Ecell; [done |]. rewrite <- Ecell in *.
  change (u ".") with [ch "."]. change (u ",") with [ch ","].
  rewrite replace_remove.
  assert (List.filter (fun c => negb (c =? ch ".")%N) cell
          = List.filter is_ascii_digit cell) as ->.
  { clear Ecell Hne Hsmall Hr. induction cell as [| c r IH]; [done |].
    cbn [List.filter]. rewrite IH by (intros x Hx; apply Hcell; by right).
    destruct (Hcell c (or_introl eq_refl)) as [Hd | ->]; [| done].
    rewrite Hd. replace (c =? ch ".")%N with false; [done |].
    symmetry. apply N.eqb_neq. intros ->. discriminate Hd. }
  set (ds := List.filter is_ascii_digit cell) in *.
  assert (forallb is_ascii_digit ds = true) as Hds.
  { apply forallb_forall. intros c Hc. by apply filter_In in Hc as [_ Hc]. }
  assert (ds <> []) as Hds_ne.
  { intros E. apply Hne. unfold digit_values. fold ds. by rewrite E. }
  rewrite replace_absent.
  2:{ intros Hc. apply (proj1 (forallb_forall _ _) Hds) in Hc. discriminate Hc. }
  rewrite (py_float_digits ds Hds_ne Hds). cbn [option_bind].
  change (map (fun c => Z.of_N (c - 48)) ds) with (digit_values cell).
  rewrite Z.pow_0_r, Z.mul_1_r.
  assert (0 <= digits_value (digit_values cell))%Z as H0.
  { apply digits_value_nonneg. unfold digit_values.
    apply List.Forall_forall. intros z Hz. apply in_map_iff in Hz as (c & <- & _). lia. }
  rewrite round_binary64_small by lia.
  rewrite <- (Z.mul_1_r (digits_value (digit_values cell))) at 1.
  by rewrite rne_exact.
Qed.

End Parser.

Section Loader.
Variable U : UnicodeData.

(** ** What a load leaves in the catalogue *)

Lemma carregar_linhas_well_keyed (rows : list csv_row) (linhas lidas : nat)
    (CATALOGO : catalogo) :
  (forall k e, CATALOGO !! k = Some e -> well_keyed U k e) ->
  forall k e,
    (carregar_linhas U rows linhas lidas CATALOGO).1 !! k = Some e ->
    well_keyed U k e.
Proof.
  revert linhas lidas CATALOGO.
  induction rows as [| row rest IH]; intros linhas lidas CATALOGO Hcat;
    cbn [carregar_linhas]; [exact Hcat |].
  destruct (strip U (default [] (row_mat row))) as [| c mat] eqn:Em; [by apply IH |].
  destruct (parse_preco U (row_preco_raw row)) as [[z |] |];
    [| by apply IH | exact Hcat].
  destruct (norm_nome U (Some (c :: mat))) as [| k0 key] eqn:Ek; [by apply IH |].
  apply IH. intros k e. rewrite lookup_insert. case_decide as Hk; [| apply Hcat].
  intros [= <-]. subst k. unfold well_keyed. cbn [m_display].
  repeat split; [done | done | done |].
  rewrite <- Em. apply strip_strip.
Qed.

Lemma carregar_catalogo_keyed (w : world) (CATALOGO : catalogo)
    (k : str) (e : material) :
  (carregar_catalogo U w CATALOGO).1 !! k = Some e -> well_keyed U k e.
Proof.
  unfold carregar_catalogo. cbv zeta.
  destruct (to_csv_url _) as [| c url]; cbn [fst]; [by rewrite lookup_empty |].
  destruct (requests_get _ _) as [| rows]; cbn [fst]; [by rewrite lookup_empty |].
  intros H. apply (carregar_linhas_well_keyed rows 0 0 ∅).
  - intros k' e'. by rewrite lookup_empty.
  - destruct (carregar_linhas U rows 0 0 ∅) as [cat [[? ?] |]]; exact H.
Qed.

(** X15: every entry of a loaded catalogue sits under the normalisation of
    its own display name; key and display name are not empty and the
    display name is trimmed. *)
Theorem carregar_catalogo_well_keyed (w : world) (CATALOGO : catalogo)
    (k : str) (e : material) :
  (carregar_catalogo U w CATALOGO).1 !! k = Some e ->
  k = norm_nome U (Some (m_display e)) /\ k <> []
  /\ m_display e <> [] /\ strip U (m_display e) = m_display e.
Proof. apply carregar_catalogo_keyed. Qed.

(** ** The counters of a load *)

Lemma carregar_linhas_counters (rows : list csv_row) (linhas lidas : nat)
    (CATALOGO cat' : catalogo) (linhas' lidas' : nat) :
  carregar_linhas U rows linhas lidas CATALOGO = (cat', Returns (linhas', lidas')) ->
  linhas' = linhas + length rows
  /\ lidas <= lidas' /\ lidas' - lidas <= length rows
  /\ size cat' <= size CATALOGO + (lidas' - lidas).
Proof.
  revert linhas lidas CATALOGO.
  induction rows as [| row rest IH]; intros linhas lidas CATALOGO;
    cbn [carregar_linhas length].
  { intros [= <- <- <-]. lia. }
  destruct (strip U (default [] (row_mat row))) as [| c mat].
  { intros H. apply IH in H. lia. }
  destruct (parse_preco U (row_preco_raw row)) as [[z |] |]; [| | done].
  2:{ intros H. apply IH in H. lia. }
  destruct (norm_nome U (Some (c :: mat))) as [| k0 key].
  { intros H. apply IH in H. lia. }
  intros H. apply IH in H.
  pose proof (map_size_insert (k0 :: key)
                {| m_preco := z; m_display := c :: mat |} CATALOGO) as Hs.
  destruct (CATALOGO !! (k0 :: key)); unfold id in Hs; lia.
Qed.

(** X16: the record logged after a load counts every row of the sheet, at
    most as many accepted rows, and at most as many distinct keys as
    accepted rows; the last count is the size of the catalogue. *)
Theorem carregar_catalogo_counters (w : world) (CATALOGO : catalogo)
    (lidas linhas unicos : nat) :
  (carregar_catalogo U w CATALOGO).2 = Returns (LogInfo lidas linhas unicos) ->
  exists rows,
    requests_get w (to_csv_url (MATERIAIS_URL U w)) = DownloadOk rows
    /\ linhas = length rows
    /\ unicos = size (carregar_catalogo U w CATALOGO).1
    /\ unicos <= lidas <= linhas.
Proof.
  unfold carregar_catalogo. cbv zeta.
  destruct (to_csv_url _) as [| c url]; [done |].
  destruct (requests_get _ _) as [| rows]; [done |].
  destruct (carregar_linhas U rows 0 0 ∅) as [cat [[l r] |]] eqn:E; [| done].
  cbn [fst snd]. intros [= <- <- <-]. exists rows.
  apply carregar_linhas_counters in E. rewrite map_size_empty in E.
  repeat split; lia.
Qed.

(** ** The last row wins *)

Lemma carregar_linhas_app (rows1 rows2 : list csv_row) (linhas lidas : nat)
    (CATALOGO : catalogo) :
  carregar_linhas U (rows1 ++ rows2) linhas lidas CATALOGO =
    match carregar_linhas U rows1 linhas lidas CATALOGO with
    | (cat, Returns (l, r)) => carregar_linhas U rows2 l r cat
    | (cat, Raises) => (cat, Raises)
    end.
Proof.
  revert linhas lidas CATALOGO.
  induction rows1 as [| row rest IH]; intros linhas lidas CATALOGO; [done |].
  cbn [app carregar_linhas].
  destruct (strip U (default [] (row_mat row))) as [| c mat]; [apply IH |].
  destruct (parse_preco U (row_preco_raw row)) as [[z |] |]; [| apply IH | done].
  destruct (norm_nome U (Some (c :: mat))); apply IH.
Qed.

(** X17: when the load returns, a valid last row of the sheet is in the
    catalogue with its own price and display name, whatever the rows
    before it stored under the same key. *)
Theorem carregar_catalogo_last_row (w : world) (CATALOGO : catalogo)
    (rows : list csv_row) (row : csv_row) (mat : str) (preco : Z) :
  to_csv_url (MATERIAIS_URL U w) <> [] ->
  requests_get w (to_csv_url (MATERIAIS_URL U w)) = DownloadOk (rows ++ [row]) ->
  (carregar_catalogo U w CATALOGO).2 <> Raises ->
  strip U (default [] (row_mat row)) = mat -> mat <> [] ->
  parse_preco U (row_preco_raw row) = Returns (Some preco) ->
  norm_nome U (Some mat) <> [] ->
  (carregar_catalogo U w CATALOGO).1 !! norm_nome U (Some mat)
  = Some {| m_preco := preco; m_display := mat |}.
Proof.
  intros Hurl Hget Hret Hmat Hne Hp Hk. revert Hret.
  unfold carregar_catalogo. cbv zeta.
  destruct (to_csv_url _) as [| c url]; [done |]. rewrite Hget.
  rewrite carregar_linhas_app.
  destruct (carregar_linhas U rows 0 0 ∅) as [cat [[l r] |]]; [| done].
  cbn [carregar_linhas]. rewrite Hmat, Hp.
  destruct mat as [| m0 mat']; [done |].
  destruct (norm_nome U (Some (m0 :: mat'))) as [| k0 key] eqn:Ek; [done |].
  intros _. cbn [fst]. by rewrite lookup_insert_eq.
Qed.

(** ** A load that does not raise *)



End Loader.

Section Pricing.
Variable U : UnicodeData.

(** ** The price between the cheapest and the dearest material *)

Lemma fold_left_add_bounds (l : list Z) (lo hi acc : Z) :
  Forall (fun x => lo <= x <= hi)%Z l ->
  (acc + Z.of_nat (length l) * lo <= fold_left Z.add l acc
   <= acc + Z.of_nat (length l) * hi)%Z.
Proof.
  revert acc. induction l as [| x l IH]; intros acc H; cbn [fold_left length].
  - lia.
  - inversion H as [| ? ? Hx Hl]; subst. specialize (IH (acc + x)%Z Hl). lia.
Qed.

Lemma nearest_even_between (a n z lo hi : Z) :
  (0 < n)%Z -> nearest_even a n z -> (n * lo <= a <= n * hi)%Z ->
  (lo <= z <= hi)%Z.
Proof. intros Hn [H _] Ha. nia. Qed.

(** X19: when every item resolves and the sum is below 2^52 in absolute
    value, the price answered lies between the lowest and the highest
    unit price asked for; materials of one price are answered with it. *)
Theorem preco_between (CATALOGO : catalogo) (raw : str) (lo hi : Z) :
  let itens := itens_de U (strip U raw) in
  let soma := soma_unitarios U CATALOGO itens in
  itens <> [] ->
  (forall p, p ∈ itens ->
     exists e, CATALOGO !! norm_nome U (Some p) = Some e
               /\ (lo <= m_preco e <= hi)%Z) ->
  (Z.abs soma < 2 ^ 52)%Z ->
  exists preco_final,
    preco U CATALOGO (Some raw) =
      Returns
        (JObj [(u "materiais", JList (map JStr itens));
               (u "preco", JInt preco_final);
               (u "categoria",
                JStr (classificar_categoria U
                        (map (fun p => norm_nome U (Some p)) itens)));
               (u "detalhes",
                JObj [(u "soma_precos_unitarios", JInt soma);
                      (u "quantidade_materiais",
                       JInt (Z.of_nat (length itens)))])],
         200)
    /\ (lo <= preco_final <= hi)%Z.
Proof.
  intros itens soma Hne Hres Hsmall.
  destruct (preco_resolved U CATALOGO raw) as [Hresp Hnear]; [done | | done |].
  { intros p Hp. destruct (Hres p Hp) as (e & -> & _). by eexists. }
  exists (rne soma (Z.of_nat (length itens))). split; [exact Hresp |].
  apply (nearest_even_between soma (Z.of_nat (length itens))); [| exact Hnear |].
  { destruct itens; [done | cbn [length]; lia]. }
  pose proof (fold_left_add_bounds (map (preco_unitario U CATALOGO) itens) lo hi 0) as Hb.
  rewrite length_map in Hb. unfold soma, soma_unitarios.
  assert (Forall (fun x => lo <= x <= hi)%Z (map (preco_unitario U CATALOGO) itens)) as Hf.
  { apply List.Forall_forall. intros x Hx. apply in_map_iff in Hx as (p & <- & Hp).
    apply list_elem_of_In in Hp. destruct (Hres p Hp) as (e & He & Hr).
    unfold preco_unitario. by rewrite He. }
  specialize (Hb Hf). lia.
Qed.

(** ** When [/preco] fails *)

Lemma filter_desconhecido_nil (CATALOGO : catalogo) (itens : list str) :
  List.filter (desconhecido U CATALOGO) itens = [] ->
  forall p, p ∈ itens -> is_Some (CATALOGO !! norm_nome U (Some p)).
Proof.
  intros H p Hp. destruct (CATALOGO !! norm_nome U (Some p)) as [e |] eqn:E; [by eexists |].
  exfalso. assert (In p (List.filter (desconhecido U CATALOGO) itens)) as Hf.
  { apply filter_In. split; [by apply list_elem_of_In |].
    unfold desconhecido. by rewrite E, bool_decide_eq_true_2. }
  by rewrite H in Hf.
Qed.

(** X20: [/preco] ends in an exception only when every item resolves and the
    sum of the unit prices reaches 2^52 in absolute value: it never
    fails on a missing key. *)
Theorem preco_raises (CATALOGO : catalogo) (materiais : option str) :
  preco U CATALOGO materiais = Raises ->
  let itens := itens_de U (strip U (default [] materiais)) in
  (forall p, p ∈ itens -> is_Some (CATALOGO !! norm_nome U (Some p)))
  /\ (2 ^ 52 <= Z.abs (soma_unitarios U CATALOGO itens))%Z.
Proof.
  destruct materiais as [raw |]; [| done]. intros H. cbv zeta. cbn [default].
  set (itens := itens_de U (strip U raw)).
  assert (itens <> [] /\ List.filter (desconhecido U CATALOGO) itens = [])
    as [Hne Hf].
  { revert H. unfold preco. rewrite preco_arg. unfold itens.
    destruct (strip U raw) as [| c s]; [done |].
    destruct (itens_de U (c :: s)) as [| i its]; [done |].
    rewrite desconhecidos_filter.
    by destruct (List.filter _ (i :: its)). }
  pose proof (filter_desconhecido_nil CATALOGO itens Hf) as Hres.
  split; [exact Hres |].
  destruct (Z_lt_le_dec (Z.abs (soma_unitarios U CATALOGO itens)) (2 ^ 52))
    as [Hsmall | Hbig]; [exfalso | exact Hbig].
  destruct (preco_resolved U CATALOGO raw Hne Hres Hsmall) as [Hresp _].
  by rewrite Hresp in H.
Qed.

End Pricing.

Section Listing.
Variable U : UnicodeData.

(** ** The listing of the catalogue *)

Lemma str_le_total (a b : str) : str_le a b = true \/ str_le b a = true.
Proof.
  revert b. induction a as [| x a IH]; intros [| y b]; cbn [str_le]; auto.
  destruct (N.lt_trichotomy x y) as [H | [-> | H]].
  - left. by rewrite (proj2 (N.ltb_lt x y) H).
  - rewrite N.ltb_irrefl, N.eqb_refl. cbn [orb andb]. apply IH.
  - right. by rewrite (proj2 (N.ltb_lt y x) H).
Qed.

Lemma str_le_trans (a b c : str) :
  str_le a b = true -> str_le b c = true -> str_le a c = true.
Proof.
  revert b c. induction a as [| x a IH]; intros [| y b] [| z c]; cbn [str_le]; try done.
  intros H1 H2.
  apply orb_true_iff in H1 as [H1 | H1]; apply orb_true_iff in H2 as [H2 | H2].
  - apply N.ltb_lt in H1. apply N.ltb_lt in H2.
    rewrite (proj2 (N.ltb_lt x z)); [done | lia].
  - apply andb_true_iff in H2 as [H2 _]. apply N.eqb_eq in H2. subst z.
    by rewrite H1.
  - apply andb_true_iff in H1 as [H1 _]. apply N.eqb_eq in H1. subst y.
    by rewrite H2.
  - apply andb_true_iff in H1 as [E1 H1]. apply andb_true_iff in H2 as [E2 H2].
    apply N.eqb_eq in E1. apply N.eqb_eq in E2. subst y z.
    rewrite N.eqb_refl, (IH b c H1 H2). by rewrite orb_true_r.
Qed.

Lemma insert_by_perm (key : str -> str) (x : str) (l : list str) :
  insert_by key x l ≡ₚ x :: l.
Proof.
  induction l as [| y l IH]; [done |]. cbn [insert_by].
  destruct (str_le (key x) (key y)); [done |].
  rewrite IH. apply perm_swap.
Qed.

Lemma sorted_by_perm (key : str -> str) (l : list str) : sorted_by key l ≡ₚ l.
Proof.
  unfold sorted_by. induction l as [| x l IH]; [done |]. cbn [foldr].
  by rewrite insert_by_perm, IH.
Qed.

Lemma insert_by_sorted (key : str -> str) (x : str) (l : list str) :
  StronglySorted (fun a b => str_le (key a) (key b) = true) l ->
  StronglySorted (fun a b => str_le (key a) (key b) = true) (insert_by key x l).
Proof.
  induction 1 as [| y l Hl IH Hy]; cbn [insert_by].
  { repeat constructor. }
  destruct (str_le (key x) (key y)) eqn:E.
  - constructor; [by constructor |]. constructor; [done |].
    eapply Forall_impl; [exact Hy |]. intros z Hz. cbn beta in *.
    by apply (str_le_trans _ (key y)).
  - constructor; [done |].
    rewrite insert_by_perm. constructor; [| done].
    destruct (str_le_total (key x) (key y)) as [H | H]; [congruence | done].
Qed.

Lemma sorted_by_sorted (key : str -> str) (l : list str) :
  StronglySorted (fun a b => str_le (key a) (key b) = true) (sorted_by key l).
Proof.
  unfold sorted_by. induction l as [| x l IH]; [constructor |].
  cbn [foldr]. by apply insert_by_sorted.
Qed.

(** X21: [/materiais] lists the display name of every entry once, in the
    order of the lower-cased names, and its total is the number of
    entries, the number [/health] reports. *)
Theorem materiais_listing (CATALOGO : catalogo) (valores : list material) :
  valores ≡ₚ (map_to_list CATALOGO).*2 ->
  exists itens,
    materiais U valores =
      (JObj [(u "itens", JList (map JStr itens));
             (u "total", JInt (Z.of_nat (size CATALOGO)))], 200)
    /\ itens ≡ₚ map m_display (map_to_list CATALOGO).*2
    /\ StronglySorted
         (fun a b => str_le (py_lower U a) (py_lower U b) = true) itens
    /\ health CATALOGO =
         (JObj [(u "ok", JBool true);
                (u "materiais_catalogo", JInt (Z.of_nat (length itens)));
                (u "exemplo",
                 JStr (u "/preco?materiais=Couro Bovino, Couro de Tilápia, Jeans"))],
          200).
Proof.
  intros Hv. exists (sorted_by (py_lower U) (map m_display valores)).
  assert (length (sorted_by (py_lower U) (map m_display valores)) = size CATALOGO)
    as Hlen.
  { rewrite sorted_by_perm, length_map, Hv, length_fmap.
    apply length_map_to_list. }
  unfold materiais, health. cbv zeta. rewrite Hlen.
  repeat split.
  - by rewrite sorted_by_perm, Hv.
  - apply sorted_by_sorted.
Qed.

(** *** No ties in a loaded catalogue *)

Lemma str_le_antisym (a b : str) :
  str_le a b = true -> str_le b a = true -> a = b.
Proof.
  revert b. induction a as [| x a IH]; intros [| y b]; cbn [str_le]; try done.
  intros H1 H2.
  apply orb_true_iff in H1 as [H1 | H1]; apply orb_true_iff in H2 as [H2 | H2].
  - apply N.ltb_lt in H1. apply N.ltb_lt in H2. lia.
  - apply andb_true_iff in H2 as [H2 _]. apply N.eqb_eq in H2.
    apply N.ltb_lt in H1. lia.
  - apply andb_true_iff in H1 as [H1 _]. apply N.eqb_eq in H1.
    apply N.ltb_lt in H2. lia.
  - apply andb_true_iff in H1 as [E1 H1]. apply andb_true_iff in H2 as [_ H2].
    apply N.eqb_eq in E1. subst y. f_equal. by apply IH.
Qed.

Lemma sorted_unique (key : str -> str) (l1 l2 : list str) :
  StronglySorted (fun a b => str_le (key a) (key b) = true) l1 ->
  StronglySorted (fun a b => str_le (key a) (key b) = true) l2 ->
  l1 ≡ₚ l2 -> NoDup (map key l1) -> l1 = l2.
Proof.
  intros H1. revert l2. induction H1 as [| x l1 Hl1 IH Hx]; intros l2 H2 Hp Hn.
  { by apply Permutation_nil_l in Hp. }
  destruct H2 as [| y l2 Hl2 Hy].
  { by apply Permutation_nil_r in Hp. }
  cbn [map] in Hn. apply NoDup_cons in Hn as [Hnx Hn].
  destruct (decide (x = y)) as [<- | Hne].
  { f_equal. apply IH; [done | by apply Permutation_cons_inv in Hp | done]. }
  exfalso.
  assert (x ∈ l2) as Hx2.
  { assert (x ∈ y :: l2) as Hin by (rewrite <- Hp; by left).
    apply elem_of_cons in Hin as [| Hin]; done. }
  assert (y ∈ l1) as Hy1.
  { assert (y ∈ x :: l1) as Hin by (rewrite Hp; by left).
    apply elem_of_cons in Hin as [| Hin]; done. }
  apply Hnx. replace (key x) with (key y); [by apply list_elem_of_fmap_2 |].
  apply str_le_antisym.
  - by apply (proj1 (Forall_forall _ _) Hy).
  - by apply (proj1 (Forall_forall _ _) Hx).
Qed.

Lemma sorted_by_order_free (key : str -> str) (l1 l2 : list str) :
  l1 ≡ₚ l2 -> NoDup (map key l1) -> sorted_by key l1 = sorted_by key l2.
Proof.
  intros Hp Hn. apply (sorted_unique key); [apply sorted_by_sorted .. | |].
  - by rewrite !sorted_by_perm.
  - by rewrite sorted_by_perm.
Qed.

Lemma norm_nome_lower_eq (a b : str) :
  py_lower U a = py_lower U b -> norm_nome U (Some a) = norm_nome U (Some b).
Proof. intros H. cbn [norm_nome]. by rewrite H. Qed.

(** X22: the display names of a loaded catalogue differ pairwise once
    lower-cased, so its listing is the same whatever the order in which
    the dict yields its values. *)
Theorem materiais_order_free (w : world) (c0 : catalogo)
    (valores1 valores2 : list material) :
  let CATALOGO := (carregar_catalogo U w c0).1 in
  valores1 ≡ₚ (map_to_list CATALOGO).*2 ->
  valores2 ≡ₚ (map_to_list CATALOGO).*2 ->
  materiais U valores1 = materiais U valores2.
Proof.
  intros CATALOGO H1 H2. unfold materiais. cbv zeta.
  assert (sorted_by (py_lower U) (map m_display valores1)
          = sorted_by (py_lower U) (map m_display valores2)) as ->; [| done].
  apply sorted_by_order_free; [by rewrite H1, H2 |].
  rewrite H1. rewrite <- !list_fmap_compose.
  apply NoDup_fmap_2_strong; [| apply NoDup_map_to_list].
  intros [k1 e1] [k2 e2] Hin1 Hin2 E. cbn in E.
  apply elem_of_map_to_list in Hin1, Hin2.
  destruct (carregar_catalogo_keyed U w c0 k1 e1 Hin1) as [Hk1 _].
  destruct (carregar_catalogo_keyed U w c0 k2 e2 Hin2) as [Hk2 _].
  assert (k1 = k2) as <-.
  { rewrite Hk1, Hk2. by apply norm_nome_lower_eq. }
  fold CATALOGO in Hin1, Hin2. rewrite Hin1 in Hin2. by injection Hin2 as <-.
Qed.

End Listing.

Section Answers.
Variable U : UnicodeData.

(** ** From the sheet to the answer *)

Lemma split_on_absent (sep : N) (s : str) :
  ~ In sep s -> split_on sep s = [s].
Proof.
  induction s as [| c r IH]; [done |]. intros H. cbn [split_on].
  rewrite (proj2 (N.eqb_neq c sep)) by (intros ->; apply H; by left).
  rewrite IH; [done |]. intros Hr. apply H. by right.
Qed.

Lemma itens_de_single (p : str) :
  p <> [] -> strip U p = p -> ~ In (ch ",") p -> itens_de U p = [p].
Proof.
  intros Hne Hs Hc. unfold itens_de. rewrite (split_on_absent _ _ Hc).
  cbn [List.filter]. rewrite Hs, bool_decide_eq_false_2 by done.
  cbn [negb map]. by rewrite Hs.
Qed.

(** X23: every entry of a loaded catalogue is found by its own display name:
    asked for alone, a display name without comma is answered with the
    unit price of its entry (below 2^52 in absolute value). *)
Theorem preco_of_loaded_entry (w : world) (c0 : catalogo) (k : str) (e : material) :
  let CATALOGO := (carregar_catalogo U w c0).1 in
  CATALOGO !! k = Some e ->
  ch "," ∉ m_display e ->
  (Z.abs (m_preco e) < 2 ^ 52)%Z ->
  preco U CATALOGO (Some (m_display e)) =
    Returns
      (JObj [(u "materiais", JList [JStr (m_display e)]);
             (u "preco", JInt (m_preco e));
             (u "categoria", JStr (classificar_categoria U [k]));
             (u "detalhes",
              JObj [(u "soma_precos_unitarios", JInt (m_preco e));
                    (u "quantidade_materiais", JInt 1)])],
       200).
Proof.
  intros CATALOGO He Hcomma Hsmall.
  destruct (carregar_catalogo_keyed U w c0 k e He) as (Hk & _ & Hne & Hs).
  assert (itens_de U (strip U (m_display e)) = [m_display e]) as Hi.
  { rewrite Hs. apply itens_de_single; [done | done |].
    intros H. by apply Hcomma, list_elem_of_In. }
  assert (soma_unitarios U CATALOGO [m_display e] = m_preco e) as Hsoma.
  { unfold soma_unitarios, preco_unitario. cbn [map fold_left].
    by rewrite <- Hk, He. }
  destruct (preco_resolved U CATALOGO (m_display e)) as [-> _].
  - by rewrite Hi.
  - rewrite Hi. intros p Hp. apply list_elem_of_singleton in Hp as ->.
    rewrite <- Hk, He. by eexists.
  - by rewrite Hi, Hsoma.
  - rewrite Hi, Hsoma. cbn [map length]. rewrite <- Hk.
    change (Z.of_nat 1) with 1%Z.
    assert (rne (m_preco e) 1 = m_preco e) as ->; [| done].
    pose proof (rne_exact (m_preco e) 1 ltac:(lia)) as Hx.
    by rewrite Z.mul_1_r in Hx.
Qed.

(** ** The category of a set of keys *)

Lemma existsb_same_elems {A : Type} (f : A -> bool) (l1 l2 : list A) :
  (forall x, In x l1 <-> In x l2) -> existsb f l1 = existsb f l2.
Proof.
  intros H. apply eq_true_iff_eq. rewrite !existsb_exists.
  split; intros (x & Hin & Hx); exists x; (split; [by apply H | done]).
Qed.

(** X24: the category depends on which keys are asked for, not on their
    order or on how often each occurs. *)
Theorem classificar_categoria_same_keys (l1 l2 : list str) :
  (forall k, k ∈ l1 <-> k ∈ l2) ->
  classificar_categoria U l1 = classificar_categoria U l2.
Proof.
  intros H. unfold classificar_categoria.
  rewrite (existsb_same_elems _ l1 l2); [done |].
  intros k. rewrite <- !list_elem_of_In. apply H.
Qed.

(** ** The order of the materials *)

Lemma fold_left_add_acc (l : list Z) (acc : Z) :
  fold_left Z.add l acc = (acc + fold_left Z.add l 0)%Z.
Proof.
  revert acc. induction l as [| x l IH]; intros acc; cbn [fold_left]; [lia |].
  rewrite (IH (acc + x)%Z), (IH (0 + x)%Z). lia.
Qed.

Lemma soma_unitarios_perm (CATALOGO : catalogo) (l1 l2 : list str) :
  l1 ≡ₚ l2 -> soma_unitarios U CATALOGO l1 = soma_unitarios U CATALOGO l2.
Proof.
  unfold soma_unitarios. induction 1 as [| x l1 l2 _ IH | x y l | l1 l2 l3 _ IH1 _ IH2];
    cbn [map fold_left].
  - done.
  - rewrite (fold_left_add_acc _ (0 + _)%Z), IH.
    by rewrite <- (fold_left_add_acc _ (0 + _)%Z).
  - f_equal. lia.
  - by rewrite IH1.
Qed.

(** X25: the materials asked for in another order get the same price, the
    same category and the same details; only the echoed list follows the
    query. *)
Theorem preco_order_free (CATALOGO : catalogo) (raw1 raw2 : str) :
  let itens1 := itens_de U (strip U raw1) in
  let itens2 := itens_de U (strip U raw2) in
  itens1 ≡ₚ itens2 ->
  itens1 <> [] ->
  (forall p, p ∈ itens1 -> is_Some (CATALOGO !! norm_nome U (Some p))) ->
  (Z.abs (soma_unitarios U CATALOGO itens1) < 2 ^ 52)%Z ->
  exists preco_final categoria detalhes,
    preco U CATALOGO (Some raw1) =
      Returns (JObj [(u "materiais", JList (map JStr itens1));
                     (u "preco", JInt preco_final);
                     (u "categoria", JStr categoria);
                     (u "detalhes", detalhes)], 200)
    /\ preco U CATALOGO (Some raw2) =
      Returns (JObj [(u "materiais", JList (map JStr itens2));
                     (u "preco", JInt preco_final);
                     (u "categoria", JStr categoria);
                     (u "detalhes", detalhes)], 200).
Proof.
  intros itens1 itens2 Hp Hne Hres Hsmall.
  destruct (preco_resolved U CATALOGO raw1 Hne Hres Hsmall) as [-> _].
  destruct (preco_resolved U CATALOGO raw2) as [-> _].
  - fold itens2. intros E. apply Hne. fold itens1 in Hp. rewrite E in Hp.
    by apply Permutation_nil_r in Hp.
  - fold itens2. intros p Hin. apply Hres. fold itens1. by rewrite Hp.
  - fold itens2. by rewrite <- (soma_unitarios_perm CATALOGO _ _ Hp).
  - fold itens1 itens2. do 3 eexists. split; [reflexivity |].
    rewrite <- (soma_unitarios_perm CATALOGO _ _ Hp), <- (Permutation_length Hp).
    assert (classificar_categoria U (map (fun p => norm_nome U (Some p)) itens2)
            = classificar_categoria U (map (fun p => norm_nome U (Some p)) itens1))
      as ->; [| done].
    unfold classificar_categoria.
    rewrite (existsb_same_elems _ _ (map (fun p => norm_nome U (Some p)) itens1));
      [done |].
    intros k. rewrite <- !list_elem_of_In. by rewrite Hp.
Qed.

End Answers.

(** * The properties on concrete inputs *)

(** C1, counterexample: the loaded catalogue holds "jeans", the download
    fails, and after the reload "jeans" is gone: a query for it gets 404. *)
Lemma reload_failure_loses_entries :
  catalogo_loaded !! u "jeans" = Some {| m_preco := 30; m_display := u "Jeans" |}
  /\ requests_get world_offline (to_csv_url (MATERIAIS_URL latin1_only world_offline))
     = DownloadError
  /\ (carregar_catalogo latin1_only world_offline catalogo_loaded).1 !! u "jeans" = None
  /\ preco latin1_only
       (carregar_catalogo latin1_only world_offline catalogo_loaded).1
       (Some (u "Jeans"))
     = Returns
         (JObj [(u "erro", JStr (u "Alguns materiais não existem no catálogo"));
                (u "materiais_desconhecidos", JList [JStr (u "Jeans")])],
          404).
Proof. repeat split; vm_compute; reflexivity. Qed.

(** C1 on the loaded catalogue and the world without network. *)
Lemma reload_failure_empties_catalog_witness :
  (carregar_catalogo latin1_only world_offline catalogo_loaded).1 = ∅
  /\ forall raw p : str,
       p ∈ itens_de latin1_only (strip latin1_only raw) ->
       preco latin1_only
         (carregar_catalogo latin1_only world_offline catalogo_loaded).1 (Some raw) =
         Returns
           (JObj [(u "erro", JStr (u "Alguns materiais não existem no catálogo"));
                  (u "materiais_desconhecidos",
                   JList (map JStr (itens_de latin1_only (strip latin1_only raw))))],
            404).
Proof.
  apply (reload_failure_empties_catalog latin1_only world_offline catalogo_loaded).
  - vm_compute. discriminate.
  - reflexivity.
Defined.

(** C3, counterexample: the download fails and [/reload] answers 200 with
    [ok] true. *)
Lemma reload_failure_answers_ok :
  requests_get world_offline (to_csv_url (MATERIAIS_URL latin1_only world_offline))
  = DownloadError
  /\ (reload latin1_only world_offline catalogo_loaded).2
     = Returns (JObj [(u "ok", JBool true);
                      (u "materiais_catalogo", JInt 0)], 200).
Proof. split; vm_compute; reflexivity. Qed.

(** C3 on the loaded catalogue and the world without network. *)
Lemma reload_failure_reports_ok_witness :
  (carregar_catalogo latin1_only world_offline catalogo_loaded).2 = Returns LogError
  /\ reload latin1_only world_offline catalogo_loaded =
       (∅, Returns (JObj [(u "ok", JBool true);
                          (u "materiais_catalogo", JInt 0)], 200)).
Proof.
  apply (reload_failure_reports_ok latin1_only world_offline catalogo_loaded).
  - vm_compute. discriminate.
  - reflexivity.
Defined.

(** C7 on a query with one premium key among others. *)
Lemma classificar_categoria_spec_witness :
  classificar_categoria latin1_only [u "jeans"; u "couro jacare"; u "linho"]
  = u "Couro Premium".
Proof.
  apply (proj1 (classificar_categoria_spec latin1_only
                  [u "jeans"; u "couro jacare"; u "linho"])).
  exists (u "couro jacare"). split.
  - apply list_elem_of_In. vm_compute. tauto.
  - apply PREMIUM_KEYS_elems. apply list_elem_of_In. vm_compute. tauto.
Defined.

(** C6 on a query with one unknown name between two known ones. *)
Lemma preco_unknown_materials_witness :
  preco latin1_only catalogo_exemplo (Some (u "Jeans,  Veludo , Couro Bovino")) =
    Returns
      (JObj [(u "erro", JStr (u "Alguns materiais não existem no catálogo"));
             (u "materiais_desconhecidos",
              JList (map JStr
                       (List.filter
                          (fun p => bool_decide
                             (catalogo_exemplo !! norm_nome latin1_only (Some p) = None))
                          (itens_de latin1_only
                             (strip latin1_only (u "Jeans,  Veludo , Couro Bovino"))))))],
       404).
Proof.
  apply (preco_unknown_materials latin1_only catalogo_exemplo
           (u "Jeans,  Veludo , Couro Bovino")).
  exists (u "Veludo"). split.
  - apply list_elem_of_In. vm_compute. tauto.
  - vm_compute. reflexivity.
Defined.

(** C10 on the query "Jeans, de" against a loaded catalogue. *)
Lemma empty_key_never_priced_witness :
  exists desconhecidos,
    u "de" ∈ desconhecidos
    /\ preco latin1_only (carregar_catalogo latin1_only world_sheet ∅).1
         (Some (u "Jeans, de")) =
         Returns
           (JObj [(u "erro", JStr (u "Alguns materiais não existem no catálogo"));
                  (u "materiais_desconhecidos", JList (map JStr desconhecidos))],
            404).
Proof.
  apply (proj1 (proj2 (empty_key_never_priced latin1_only))
           (carregar_catalogo latin1_only world_sheet ∅).1
           (u "Jeans, de") (u "de")).
  - apply reachable_load, reachable_start.
  - apply list_elem_of_In. vm_compute. tauto.
  - vm_compute. reflexivity.
Defined.

(** C4, counterexample: a sheet whose price cell is "-5" is loaded with
    the unit price -5. *)
Lemma stored_preco_negative :
  (carregar_catalogo latin1_only world_negative ∅).1 !! u "couro x"
  = Some {| m_preco := -5; m_display := u "Couro X" |}.
Proof. vm_compute. reflexivity. Qed.

(** C4 on the entry "jeans" of a loaded sheet. *)
Lemma stored_preco_is_parsed_witness :
  exists rows row cell,
    requests_get world_sheet (to_csv_url (MATERIAIS_URL latin1_only world_sheet))
    = DownloadOk rows
    /\ row ∈ rows
    /\ row_preco_raw row = Some cell
    /\ parse_preco latin1_only (Some cell) = Returns (Some 30%Z)
    /\ (ch "-" ∉ cell -> (0 <= 30)%Z).
Proof.
  apply (stored_preco_is_parsed latin1_only world_sheet ∅ (u "jeans")
           {| m_preco := 30; m_display := u "Jeans" |}).
  vm_compute. reflexivity.
Defined.

(** C8, counterexample: the pound sign is transliterated to "PS", which
    a second pass lower-cases. *)
Lemma norm_nome_not_idempotent :
  norm_nome latin1_only (Some [163%N]) = u "PS"
  /\ norm_nome latin1_only (Some (norm_nome latin1_only (Some [163%N]))) = u "ps".
Proof. split; vm_compute; reflexivity. Qed.

(** C8 on a name with a hyphen, the connector and an accent. *)
Lemma norm_nome_idempotent_witness :
  norm_nome latin1_only (Some (norm_nome latin1_only (Some (u "Couro-de-Jacaré"))))
  = norm_nome latin1_only (Some (u "Couro-de-Jacaré")).
Proof.
  apply (norm_nome_idempotent latin1_only (u "Couro-de-Jacaré")).
  vm_compute. reflexivity.
Defined.

(** C5, counterexample: the unit price 2^53 + 1 asked for alone comes
    back as 2^53: the quotient goes through a float. *)
Lemma preco_average_not_exact :
  preco latin1_only (carregar_catalogo latin1_only world_large ∅).1 (Some (u "Ouro"))
  = Returns
      (JObj [(u "materiais", JList [JStr (u "Ouro")]);
             (u "preco", JInt 9007199254740992);
             (u "categoria", JStr (u "Casual Urbano"));
             (u "detalhes",
              JObj [(u "soma_precos_unitarios", JInt 9007199254740993);
                    (u "quantidade_materiais", JInt 1)])],
       200).
Proof. vm_compute. reflexivity. Qed.

(** C5 on a query that names one material twice. *)
Lemma preco_average_witness :
  preco latin1_only catalogo_exemplo (Some (u "Jeans, Jeans, Couro Bovino"))
  = Returns
      (JObj [(u "materiais",
              JList [JStr (u "Jeans"); JStr (u "Jeans"); JStr (u "Couro Bovino")]);
             (u "preco", JInt 53);
             (u "categoria", JStr (u "Casual Urbano"));
             (u "detalhes",
              JObj [(u "soma_precos_unitarios", JInt 160);
                    (u "quantidade_materiais", JInt 3)])],
       200)
  /\ nearest_even 160 3 53.
Proof.
  apply (proj1 (preco_average latin1_only) catalogo_exemplo
           (u "Jeans, Jeans, Couro Bovino")).
  - vm_compute. discriminate.
  - intros p Hp. apply list_elem_of_In in Hp. vm_compute in Hp.
    destruct Hp as [<- | [<- | [<- | []]]]; vm_compute; by eexists.
  - vm_compute. reflexivity.
Defined.

(** ** Further properties *)

(** X2 on the address of a published page. *)
Lemma to_csv_url_export_witness :
  contains (u "output=csv") (to_csv_url (u "https://docs.example/d/e/pubhtml?gid=0"))
  = true.
Proof.
  apply (proj2 (to_csv_url_export (u "https://docs.example/d/e/pubhtml?gid=0"))).
  vm_compute. reflexivity.
Defined.

(** X5 on a cell of three spaces. *)
Lemma parse_preco_blank_witness :
  parse_preco latin1_only (Some (u "   ")) = Returns None.
Proof.
  apply (parse_preco_blank latin1_only (Some (u "   "))).
  vm_compute. reflexivity.
Defined.

(** X6 on a parameter of two spaces. *)
Lemma preco_blank_witness :
  preco latin1_only catalogo_exemplo (Some (u "  ")) =
    Returns (JObj [(u "erro", JStr (u "Materiais não informados"))], 400).
Proof.
  apply (preco_blank latin1_only catalogo_exemplo (Some (u "  "))).
  vm_compute. reflexivity.
Defined.

(** X7 on the second item of a query. *)
Lemma itens_de_shape_witness :
  u "Veludo" <> [] /\ strip latin1_only (u "Veludo") = u "Veludo"
  /\ (ch "," ∉ u "Veludo")
  /\ (forall c, c ∈ u "Veludo" -> c ∈ u "Jeans,  Veludo ,").
Proof.
  apply (itens_de_shape latin1_only (u "Jeans,  Veludo ,") (u "Veludo")).
  apply list_elem_of_In. vm_compute. tauto.
Defined.

(** X8 on a parameter of commas and spaces. *)
Lemma preco_only_separators_witness :
  preco latin1_only catalogo_exemplo (Some (u " , ,, ")) =
    Returns (JObj [(u "erro", JStr (u "Nenhum material válido informado"))], 400).
Proof.
  apply (preco_only_separators latin1_only catalogo_exemplo (u " , ,, ")).
  - vm_compute. discriminate.
  - intros c Hc. vm_compute in Hc. vm_compute.
    repeat (destruct Hc as [<- | Hc]; [tauto |]). destruct Hc.
Defined.

(** X9 on a blank variable, with a sheet that would load. *)
Lemma carregar_catalogo_not_configured_witness :
  carregar_catalogo latin1_only world_unconfigured catalogo_exemplo
  = (∅, Returns LogWarning).
Proof.
  apply (proj2 (carregar_catalogo_not_configured latin1_only world_unconfigured
                  catalogo_exemplo)).
  vm_compute. reflexivity.
Defined.

(** X10 on a name in mixed case. *)
Lemma norm_nome_lower_witness :
  norm_nome latin1_only (Some (py_lower latin1_only (u "Couro de JACARÉ")))
  = norm_nome latin1_only (Some (u "Couro de JACARÉ")).
Proof.
  apply (norm_nome_lower latin1_only (u "Couro de JACARÉ")).
  vm_compute. reflexivity.
Defined.

(** X11 on a hyphenated name. *)
Lemma norm_nome_hyphen_witness :
  norm_nome latin1_only (Some (replace (u "-") (u " ") (u "Couro-de-Jacaré")))
  = norm_nome latin1_only (Some (u "Couro-de-Jacaré")).
Proof.
  apply (norm_nome_hyphen latin1_only (u "Couro-de-Jacaré")).
  vm_compute. reflexivity.
Defined.

(** X12 on the two words of "Couro de Tilápia". *)
Lemma norm_nome_particle_witness :
  norm_nome latin1_only (Some (u "Couro" ++ u " de " ++ u "Tilápia"))
  = norm_nome latin1_only (Some (u "Couro" ++ u " " ++ u "Tilápia")).
Proof.
  apply (norm_nome_particle latin1_only (u "Couro") (u "Tilápia"));
    vm_compute; reflexivity.
Defined.


(** X14 on a price with two thousands separators. *)
Lemma parse_preco_digits_witness :
  parse_preco latin1_only (Some (u "1.497.000")) = Returns (Some 1497000%Z).
Proof.
  apply (parse_preco_digits latin1_only (u "1.497.000")).
  - intros c Hc. vm_compute in Hc. vm_compute.
    repeat (destruct Hc as [<- | Hc]; [tauto |]). destruct Hc.
  - vm_compute. discriminate.
  - vm_compute. reflexivity.
Defined.

(** X15 on the entry a repeated material leaves. *)
Lemma carregar_catalogo_well_keyed_witness :
  u "jeans" = norm_nome latin1_only (Some (u "JEANS")) /\ u "jeans" <> []
  /\ u "JEANS" <> [] /\ strip latin1_only (u "JEANS") = u "JEANS".
Proof.
  apply (carregar_catalogo_well_keyed latin1_only world_repeated catalogo_exemplo
           (u "jeans") {| m_preco := 1045; m_display := u "JEANS" |}).
  vm_compute. reflexivity.
Defined.

(** X16 on a sheet of five rows, three of them accepted, under two keys. *)
Lemma carregar_catalogo_counters_witness :
  exists rows,
    requests_get world_repeated (to_csv_url (MATERIAIS_URL latin1_only world_repeated))
    = DownloadOk rows
    /\ 5 = length rows
    /\ 2 = size (carregar_catalogo latin1_only world_repeated ∅).1
    /\ 2 <= 3 <= 5.
Proof.
  apply (carregar_catalogo_counters latin1_only world_repeated ∅ 3 5 2).
  vm_compute. reflexivity.
Defined.

(** X17 on the last row of that sheet, which replaces the first. *)
Lemma carregar_catalogo_last_row_witness :
  (carregar_catalogo latin1_only world_repeated ∅).1
    !! norm_nome latin1_only (Some (u "JEANS"))
  = Some {| m_preco := 1045; m_display := u "JEANS" |}.
Proof.
  apply (carregar_catalogo_last_row latin1_only world_repeated ∅
           [ {[ u "materiais" := u "Jeans"; u "preco" := u "30" ]};
             {[ u "materiais" := u "Veludo"; u "preco" := u "sob consulta" ]};
             {[ u "materiais" := u " "; u "preco" := u "10" ]};
             {[ u "material" := u "Couro de Tilápia"; u "preco (r$)" := u "50,40" ]} ]
           {[ u "nome" := u " JEANS "; u "preço" := u "R$ 1.045" ]}).
  - vm_compute. discriminate.
  - reflexivity.
  - vm_compute. discriminate.
  - vm_compute. reflexivity.
  - vm_compute. discriminate.
  - vm_compute. reflexivity.
  - vm_compute. discriminate.
Defined.


(** X19 on two materials of the example catalogue. *)
Lemma preco_between_witness :
  exists preco_final,
    preco latin1_only catalogo_exemplo (Some (u "Jeans, Couro Bovino")) =
      Returns
        (JObj [(u "materiais", JList [JStr (u "Jeans"); JStr (u "Couro Bovino")]);
               (u "preco", JInt preco_final);
               (u "categoria", JStr (u "Casual Urbano"));
               (u "detalhes",
                JObj [(u "soma_precos_unitarios", JInt 130);
                      (u "quantidade_materiais", JInt 2)])],
         200)
    /\ (30 <= preco_final <= 100)%Z.
Proof.
  apply (preco_between latin1_only catalogo_exemplo (u "Jeans, Couro Bovino") 30 100).
  - vm_compute. discriminate.
  - intros p Hp. apply list_elem_of_In in Hp. vm_compute in Hp.
    destruct Hp as [<- | [<- | []]].
    + exists {| m_preco := 30; m_display := u "Jeans" |}.
      split; [vm_compute; reflexivity | cbn; lia].
    + exists {| m_preco := 100; m_display := u "Couro Bovino" |}.
      split; [vm_compute; reflexivity | cbn; lia].
  - vm_compute. reflexivity.
Defined.

(** X20 on a price no binary64 holds, where the handler raises. *)
Lemma preco_raises_witness :
  (forall p, p ∈ itens_de latin1_only (strip latin1_only (u "Ouro")) ->
     is_Some (catalogo_costly !! norm_nome latin1_only (Some p)))
  /\ (2 ^ 52 <=
      Z.abs (soma_unitarios latin1_only catalogo_costly
               (itens_de latin1_only (strip latin1_only (u "Ouro")))))%Z.
Proof.
  apply (preco_raises latin1_only catalogo_costly (Some (u "Ouro"))).
  vm_compute. reflexivity.
Defined.

(** X21 on the example catalogue, its values in another order than the map gives them. *)
Lemma materiais_listing_witness :
  exists itens,
    materiais latin1_only
      [ {| m_preco := 30; m_display := u "Jeans" |};
        {| m_preco := 50; m_display := u "Couro de Tilápia" |};
        {| m_preco := 100; m_display := u "Couro Bovino" |} ] =
      (JObj [(u "itens", JList (map JStr itens));
             (u "total", JInt (Z.of_nat (size catalogo_exemplo)))], 200)
    /\ itens ≡ₚ map m_display (map_to_list catalogo_exemplo).*2
    /\ StronglySorted
         (fun a b => str_le (py_lower latin1_only a) (py_lower latin1_only b) = true)
         itens
    /\ health catalogo_exemplo =
         (JObj [(u "ok", JBool true);
                (u "materiais_catalogo", JInt (Z.of_nat (length itens)));
                (u "exemplo",
                 JStr (u "/preco?materiais=Couro Bovino, Couro de Tilápia, Jeans"))],
          200).
Proof.
  apply (materiais_listing latin1_only catalogo_exemplo).
  vm_compute. apply perm_skip, perm_swap.
Defined.

(** X22 on the loaded sheet, its values in both orders. *)
Lemma materiais_order_free_witness :
  materiais latin1_only
    [ {| m_preco := 100; m_display := u "Couro Bovino" |};
      {| m_preco := 30; m_display := u "Jeans" |} ]
  = materiais latin1_only
      [ {| m_preco := 30; m_display := u "Jeans" |};
        {| m_preco := 100; m_display := u "Couro Bovino" |} ].
Proof.
  apply (materiais_order_free latin1_only world_sheet ∅);
    vm_compute; first [reflexivity | apply perm_swap].
Defined.

(** X23 on an entry of the loaded sheet. *)
Lemma preco_of_loaded_entry_witness :
  preco latin1_only (carregar_catalogo latin1_only world_repeated ∅).1
    (Some (u "Couro de Tilápia")) =
    Returns
      (JObj [(u "materiais", JList [JStr (u "Couro de Tilápia")]);
             (u "preco", JInt 50);
             (u "categoria",
              JStr (classificar_categoria latin1_only [u "couro tilapia"]));
             (u "detalhes",
              JObj [(u "soma_precos_unitarios", JInt 50);
                    (u "quantidade_materiais", JInt 1)])],
       200).
Proof.
  apply (preco_of_loaded_entry latin1_only world_repeated ∅ (u "couro tilapia")
           {| m_preco := 50; m_display := u "Couro de Tilápia" |}).
  - vm_compute. reflexivity.
  - intros Hc. apply list_elem_of_In in Hc. vm_compute in Hc.
    repeat (destruct Hc as [Hc | Hc]; [discriminate Hc |]). destruct Hc.
  - vm_compute. reflexivity.
Defined.

(** X24 on two lists of the same two keys. *)
Lemma classificar_categoria_same_keys_witness :
  classificar_categoria latin1_only [u "jeans"; u "couro jacare"]
  = classificar_categoria latin1_only [u "couro jacare"; u "jeans"; u "couro jacare"].
Proof.
  apply (classificar_categoria_same_keys latin1_only
           [u "jeans"; u "couro jacare"]
           [u "couro jacare"; u "jeans"; u "couro jacare"]).
  intros k. rewrite !list_elem_of_In. cbn [In]. tauto.
Defined.

(** X25 on two spellings of one query. *)
Lemma preco_order_free_witness :
  exists preco_final categoria detalhes,
    preco latin1_only catalogo_exemplo (Some (u "Jeans, Couro Bovino")) =
      Returns (JObj [(u "materiais",
                      JList (map JStr (itens_de latin1_only
                                         (strip latin1_only (u "Jeans, Couro Bovino")))));
                     (u "preco", JInt preco_final);
                     (u "categoria", JStr categoria);
                     (u "detalhes", detalhes)], 200)
    /\ preco latin1_only catalogo_exemplo (Some (u " Couro Bovino,Jeans")) =
      Returns (JObj [(u "materiais",
                      JList (map JStr (itens_de latin1_only
                                         (strip latin1_only (u " Couro Bovino,Jeans")))));
                     (u "preco", JInt preco_final);
                     (u "categoria", JStr categoria);
                     (u "detalhes", detalhes)], 200).
Proof.
  apply (preco_order_free latin1_only catalogo_exemplo
           (u "Jeans, Couro Bovino") (u " Couro Bovino,Jeans")).
  - vm_compute. apply perm_swap.
  - vm_compute. discriminate.
  - intros p Hp. apply list_elem_of_In in Hp. vm_compute in Hp.
    destruct Hp as [<- | [<- | []]]; vm_compute; by eexists.
  - vm_compute. reflexivity.
Defined.
